(** * better-fetch: the [fetch] tool handler of [src/index.ts]

    A shallow embedding of the handler registered by [MyMCP.init]:
    fetch the URL, short-circuit on a non-2xx status, pass non-HTML bodies
    through, convert HTML to Markdown, strip links, clean up whitespace,
    truncate.

    JavaScript strings are sequences of UTF-16 code units; [length],
    [substring], [includes] and the (non-unicode) regular expressions of the
    handler all work on code units.  A string is therefore a [list N] here.
    The platform pieces the handler calls ([fetch], [Response], the WASM
    converter, the readiness promise) are oracles of a [World]. *)

From Stdlib Require Import List NArith ZArith Bool Arith Lia String Ascii.
From Stdlib Require Import Decimal DecimalString.
Import ListNotations.

Set Implicit Arguments.

(* ===================================================================== *)
(** ** Strings as code-unit sequences *)
(* ===================================================================== *)

Module Js.

Definition cu := N.
Definition str := list cu.

(** An ASCII literal as a JavaScript string. *)
Definition lit (s : string) : str := map N_of_ascii (list_ascii_of_string s).

Definition ch (a : ascii) : cu := N_of_ascii a.

(** Line feed, the [\n] of the source. *)
Definition LF : cu := 10%N.

(** [s.length] *)
Definition length (s : str) : Z := Z.of_nat (List.length s).

(** [String.prototype.substring(start, end)]: both arguments are clamped to
    [0 .. length], and swapped when [start > end].  Only integral arguments
    are modelled. *)
Definition clamp (s : str) (z : Z) : nat :=
  Z.to_nat (Z.min (Z.max z 0) (length s)).

Definition substring (s : str) (start end_ : Z) : str :=
  let a := clamp s start in
  let b := clamp s end_ in
  let from := Nat.min a b in
  let to := Nat.max a b in
  firstn (to - from) (skipn from s).

(** [s] begins with [p]. *)
Fixpoint starts_with (p s : str) : bool :=
  match p, s with
  | [], _ => true
  | _ :: _, [] => false
  | a :: p', b :: s' => N.eqb a b && starts_with p' s'
  end.

(** [String.prototype.includes(sub)]: case-sensitive search for [sub] at
    every index. *)
Fixpoint includes (s sub : str) : bool :=
  starts_with sub s ||
  match s with
  | [] => false
  | _ :: s' => includes s' sub
  end.

(** [String.prototype.toLowerCase], on the ASCII letters. *)
Definition lower_cu (c : cu) : cu :=
  if (65 <=? c)%N && (c <=? 90)%N then (c + 32)%N else c.

Definition toLowerCase (s : str) : str := map lower_cu s.

(** Number-to-string conversion of a non-negative integer, as a template
    literal does for [response.status]. *)
Definition of_N (n : N) : str := lit (NilEmpty.string_of_uint (N.to_uint n)).

(** The class [\s] of ECMAScript: WhiteSpace and LineTerminator code points
    (all of them in the basic plane). *)
Definition is_space (c : cu) : bool :=
  existsb (N.eqb c)
    [0x09; 0x0A; 0x0B; 0x0C; 0x0D; 0x20; 0xA0; 0x1680; 0x2028; 0x2029;
     0x202F; 0x205F; 0x3000; 0xFEFF]%N
  || ((0x2000 <=? c)%N && (c <=? 0x200A)%N).

End Js.

Import Js.

(* ===================================================================== *)
(** ** Regular expressions

    The fragment of ECMAScript regular expressions the handler uses:
    single-character classes, greedy [{min,}] repetition of a class,
    one capturing group, concatenation and the two anchors, matched by
    backtracking with continuations as the language specification does. *)
(* ===================================================================== *)

Module Regex.

Inductive regex : Type :=
| Cls (p : cu -> bool)            (* one code unit of a class *)
| Rep (min : nat) (p : cu -> bool) (* greedy p{min,} *)
| Grp (r : regex)                 (* ( r ) *)
| Cat (r1 r2 : regex)
| Bol                             (* ^ without the m flag *)
| Eol.                            (* $ without the m flag *)

(** A match state: end index and the captures made so far. *)
Definition result := option (nat * list str).
Definition cont := nat -> str -> list str -> result.

(** Greedy repetition: take one more code unit first, give it back when the
    continuation fails. *)
Fixpoint rep (p : cu -> bool) (min : nat) (i : nat) (s : str)
             (caps : list str) (k : cont) : result :=
  let stop := match min with O => k i s caps | S _ => None end in
  match s with
  | c :: s' =>
      if p c then
        match rep p (Nat.pred min) (S i) s' caps k with
        | Some r => Some r
        | None => stop
        end
      else stop
  | [] => stop
  end.

(** [m r i s caps k]: match [r] at index [i], where [s] is the input from
    [i] on. *)
Fixpoint m (r : regex) (i : nat) (s : str) (caps : list str) (k : cont)
  : result :=
  match r with
  | Cls p =>
      match s with
      | c :: s' => if p c then k (S i) s' caps else None
      | [] => None
      end
  | Rep min p => rep p min i s caps k
  | Grp r1 =>
      m r1 i s caps (fun j s' caps' => k j s' (caps' ++ [firstn (j - i) s]))
  | Cat r1 r2 =>
      m r1 i s caps (fun j s' caps' => m r2 j s' caps' k)
  | Bol => if Nat.eqb i 0 then k i s caps else None
  | Eol => match s with [] => k i s caps | _ :: _ => None end
  end.

Definition match_at (r : regex) (i : nat) (s : str) : result :=
  m r i s [] (fun j _ caps => Some (j, caps)).

(** [RegExpBuiltinExec] for a non-sticky expression: the leftmost index at
    or after [i] where the expression matches. *)
Fixpoint exec (r : regex) (i : nat) (s : str) : option (nat * nat * list str) :=
  match match_at r i s with
  | Some (j, caps) => Some (i, j, caps)
  | None =>
      match s with
      | [] => None
      | _ :: s' => exec r (S i) s'
      end
  end.

(** Replacement templates: literal text and [$n]. *)
Inductive piece : Type :=
| Lit (s : str)
| Ref (n : nat).

Fixpoint expand (tpl : list piece) (caps : list str) : str :=
  match tpl with
  | [] => []
  | Lit s :: tpl' => s ++ expand tpl' caps
  | Ref n :: tpl' => nth (Nat.pred n) caps [] ++ expand tpl' caps
  end.

(** [s.replace(r, tpl)] for an expression without the [g] flag: the first
    match only. *)
Definition replace (r : regex) (tpl : list piece) (s : str) : str :=
  match exec r 0 s with
  | Some (i, j, caps) => firstn i s ++ expand tpl caps ++ skipn j s
  | None => s
  end.

(** [s.replace(r, tpl)] for an expression with the [g] flag: every match,
    left to right, the search resuming at the end of the previous match
    (one further after an empty match).  [skip] counts the code units of
    the current match still to be passed over. *)
Fixpoint replace_from (r : regex) (tpl : list piece) (i : nat) (s : str)
                      (skip : nat) : str :=
  match skip with
  | S n =>
      match s with
      | [] => []
      | _ :: s' => replace_from r tpl (S i) s' n
      end
  | O =>
      match match_at r i s with
      | Some (j, caps) =>
          expand tpl caps ++
          match s with
          | [] => []
          | c :: s' =>
              if Nat.eqb j i then c :: replace_from r tpl (S i) s' 0
              else replace_from r tpl (S i) s' (j - i - 1)
          end
      | None =>
          match s with
          | [] => []
          | c :: s' => c :: replace_from r tpl (S i) s' 0
          end
      end
  end.

Definition replace_all (r : regex) (tpl : list piece) (s : str) : str :=
  replace_from r tpl 0 s 0.

(** [r.test(s)]: the expression matches somewhere in [s]. *)
Definition test (r : regex) (s : str) : bool :=
  match exec r 0 s with
  | Some _ => true
  | None => false
  end.

(** Length of the longest prefix of [s] made of code units of the class
    [p]: what a greedy repetition of [p] first takes. *)
Fixpoint run (p : cu -> bool) (s : str) : nat :=
  match s with
  | c :: s' => if p c then S (run p s') else 0
  | [] => 0
  end.

Definition is_ (c : cu) : cu -> bool := N.eqb c.
Definition is_not (c : cu) : cu -> bool := fun x => negb (N.eqb c x).

End Regex.

Import Regex.

(* ===================================================================== *)
(** ** The platform: thrown values, responses, the world *)
(* ===================================================================== *)

(** What a [catch] clause can receive: an [Error] instance with its
    [message], or any other value, given by its [String(...)] form. *)
Inductive thrown : Type :=
| ErrorObj (message : str)
| Other (string_form : str).

(** A [Response] as the handler reads it.  [content_type] is
    [headers.get("content-type")] ([None] for [null]); [text] is the outcome
    of [await response.text()]. *)
Record Response : Type := mkResponse {
  status : N;
  statusText : str;
  content_type : option str;
  text : thrown + str
}.

(** [response.ok]: the status is in the range 200 to 299. *)
Definition ok (r : Response) : bool :=
  ((200 <=? status r) && (status r <=? 299))%N.

(** The request headers and redirect mode of the [fetch] call. *)
Record RequestInit : Type := mkInit {
  headers : list (str * str);
  redirect : str
}.

(** The conversion options handed to [convert]. *)
Record Preprocessing : Type := mkPre {
  enabled : bool;
  preset : str;
  removeNavigation : bool;
  removeForms : bool
}.

Record ConvertOptions : Type := mkOptions {
  preprocessing : Preprocessing;
  headingStyle : str;
  codeBlockStyle : str;
  stripTags : list str
}.

(** The outside world of one invocation: the module-level readiness promise
    ([None] when it resolves, [Some e] when it rejects with [e]), the
    network and the conversion engine. *)
Record World : Type := mkWorld {
  ready : option thrown;
  fetch : str -> RequestInit -> thrown + Response;
  convert : str -> ConvertOptions -> thrown + str
}.

(** What an invocation did, in order. *)
Inductive event : Type :=
| EvFetch (url : str)
| EvText
| EvConvert (html : str).

Definition is_convert (e : event) : bool :=
  match e with EvConvert _ => true | _ => false end.

(** The result envelope; [isError] is [None] when the property is absent. *)
Record ToolResult : Type := mkResult {
  content_text : str;
  isError : option bool
}.

(* ===================================================================== *)
(** ** Effects: a log of events and exceptions *)
(* ===================================================================== *)

Definition M (A : Type) : Type := list event -> (thrown + A) * list event.

Definition ret {A} (a : A) : M A := fun log => (inr a, log).

Definition bind {A B} (c : M A) (f : A -> M B) : M B :=
  fun log =>
    match c log with
    | (inl e, log') => (inl e, log')
    | (inr a, log') => f a log'
    end.

Definition throw {A} (e : thrown) : M A := fun log => (inl e, log).

Definition try_catch {A} (c : M A) (h : thrown -> M A) : M A :=
  fun log =>
    match c log with
    | (inl e, log') => h e log'
    | (inr a, log') => (inr a, log')
    end.

Definition emit (e : event) : M unit := fun log => (inr tt, log ++ [e]).

Definition lift {A} (r : thrown + A) : M A :=
  match r with
  | inl e => throw e
  | inr a => ret a
  end.

Declare Scope js_scope.
Delimit Scope js_scope with js.
Notation "x <- c ;; k" := (bind c (fun x => k))
  (at level 61, c at next level, right associativity) : js_scope.
Notation "c ;;; k" := (bind c (fun _ => k))
  (at level 61, right associativity) : js_scope.
Open Scope js_scope.

(* ===================================================================== *)
(** ** The handler *)
(* ===================================================================== *)

Definition fetch_init : RequestInit :=
  {| headers :=
       [ (lit "User-Agent",
          lit "Mozilla/5.0 (Macintosh; Intel Mac OS X 10_15_7) AppleWebKit/537.36 (KHTML, like Gecko) Chrome/120.0.0.0 Safari/537.36");
         (lit "Accept",
          lit "text/html,application/xhtml+xml,application/xml;q=0.9,image/webp,*/*;q=0.8");
         (lit "Accept-Language", lit "en-US,en;q=0.5");
         (lit "Cache-Control", lit "no-cache") ];
     redirect := lit "follow" |}.

Definition convert_options : ConvertOptions :=
  {| preprocessing :=
       {| enabled := true; preset := lit "aggressive";
          removeNavigation := true; removeForms := true |};
     headingStyle := lit "atx";
     codeBlockStyle := lit "backticks";
     stripTags := map lit ["script"; "style"; "noscript"; "iframe"; "svg";
                           "img"; "picture"; "figure"]%string |}.

(** [/\[([^\]]+)\]\([^)]+\)/] *)
Definition link_re : regex :=
  Cat (Cls (is_ (ch "[")))
 (Cat (Grp (Rep 1 (is_not (ch "]"))))
 (Cat (Cls (is_ (ch "]")))
 (Cat (Cls (is_ (ch "(")))
 (Cat (Rep 1 (is_not (ch ")")))
      (Cls (is_ (ch ")"))))))).

(** [/\n{4,}/] *)
Definition newlines_re : regex := Rep 4 (is_ LF).

(** [[\s\n]]: the class [\s] already contains the line feed. *)
Definition space_or_lf (c : cu) : bool := is_space c || N.eqb LF c.

(** [/^[\s\n]+/] *)
Definition trim_start_re : regex := Cat Bol (Rep 1 space_or_lf).

(** [/[\s\n]+$/] *)
Definition trim_end_re : regex := Cat (Rep 1 space_or_lf) Eol.

(** The literal appended on truncation. *)
Definition truncation_suffix : str := [LF; LF] ++ lit "[Content truncated...]".

(** [maxLength && s.length > maxLength]: [undefined] and [0] are falsy. *)
Definition over_limit (maxLength : option Z) (s : str) : bool :=
  match maxLength with
  | None => false
  | Some n => negb (n =? 0)%Z && (Js.length s >? n)%Z
  end.

(** The number [maxLength] holds inside a branch the guard has let
    through. *)
Definition limit (maxLength : option Z) : Z :=
  match maxLength with Some n => n | None => 0%Z end.

Definition error_prefix : str := lit "Error fetching URL: ".

Definition await_ready (w : World) : M unit :=
  match ready w with
  | None => ret tt
  | Some e => throw e
  end.

Definition do_fetch (w : World) (url : str) : M Response :=
  emit (EvFetch url) ;;; lift (fetch w url fetch_init).

Definition read_text (r : Response) : M str :=
  emit EvText ;;; lift (text r).

Definition do_convert (w : World) (html : str) : M str :=
  emit (EvConvert html) ;;; lift (convert w html convert_options).

(** The three chained replacements under "Clean up excessive whitespace":
    "Max 3 consecutive newlines", "Trim start", "Trim end". *)
Definition max_newlines (s : str) : str :=
  replace_all newlines_re [Lit [LF; LF; LF]] s.

Definition trim_start (s : str) : str := replace trim_start_re [] s.

Definition trim_end (s : str) : str := replace trim_end_re [] s.

Definition cleanup (markdown : str) : str :=
  trim_end (trim_start (max_newlines markdown)).

(** The replacement under "Remove links if requested". *)
Definition strip_links (markdown : str) : str :=
  replace_all link_re [Ref 1] markdown.

(** [response.headers.get("content-type") || ""]: [null] and the empty
    string both give the empty string. *)
Definition contentType_of (response : Response) : str :=
  match content_type response with
  | Some (c :: s) => c :: s
  | _ => []
  end.

(** [error instanceof Error ? error.message : String(error)] *)
Definition errorMessage (error : thrown) : str :=
  match error with
  | ErrorObj message => message
  | Other string_form => string_form
  end.

(** The callback registered for the tool [fetch]; [includeLinks] arrives
    with its schema default applied, [maxLength] is optional. *)
Definition handler (w : World) (url : str) (includeLinks : bool)
                   (maxLength : option Z) : M ToolResult :=
  await_ready w ;;;
  try_catch
    (response <- do_fetch w url ;;
     if negb (ok response) then
       ret {| content_text :=
                error_prefix ++ of_N (status response) ++ lit " "
                ++ statusText response;
              isError := Some true |}
     else
       let contentType := contentType_of response in
       if negb (includes contentType (lit "text/html")) &&
          negb (includes contentType (lit "application/xhtml"))
       then
         text <- read_text response ;;
         let result := text in
         let result :=
           if over_limit maxLength result
           then substring result 0 (limit maxLength) ++ truncation_suffix
           else result in
         ret {| content_text := result; isError := None |}
       else
         html <- read_text response ;;
         markdown <- do_convert w html ;;
         let markdown :=
           if negb includeLinks then strip_links markdown else markdown in
         let markdown := cleanup markdown in
         let markdown :=
           if over_limit maxLength markdown
           then substring markdown 0 (limit maxLength) ++ truncation_suffix
           else markdown in
         ret {| content_text := markdown; isError := None |})
    (fun error =>
       ret {| content_text := error_prefix ++ errorMessage error;
              isError := Some true |}).

(** One invocation, from an empty log. *)
Definition invoke (w : World) (url : str) (includeLinks : bool)
                  (maxLength : option Z) : (thrown + ToolResult) * list event :=
  handler w url includeLinks maxLength [].

(* ===================================================================== *)
(** ** Vocabulary of the statements *)
(* ===================================================================== *)

(** The status is a success status. *)
Definition success (r : Response) : Prop := (200 <= status r <= 299)%N.

(** The branch test of the handler, read positively. *)
Definition is_html (r : Response) : bool :=
  includes (contentType_of r) (lit "text/html")
  || includes (contentType_of r) (lit "application/xhtml").

(** The converter was called during the invocation. *)
Definition converter_invoked (log : list event) : bool := existsb is_convert log.

(** The result built by the [catch] clause for [e]. *)
Definition caught (e : thrown) : ToolResult :=
  {| content_text := error_prefix ++ errorMessage e; isError := Some true |}.

(** The text that reaches the truncation step on the HTML path. *)
Definition post_processed (includeLinks : bool) (markdown : str) : str :=
  cleanup (if includeLinks then markdown else strip_links markdown).

(** [t] is the text that reaches the truncation step: the body on the
    passthrough path, the cleaned-up Markdown on the HTML path. *)
Definition reaches_truncation (w : World) (includeLinks : bool)
                              (r : Response) (body t : str) : Prop :=
  if is_html r
  then exists markdown,
         convert w body convert_options = inr markdown /\
         t = post_processed includeLinks markdown
  else t = body.

(** Converter output seen as a sequence of plain text and inline links. *)
Inductive segment : Type :=
| Plain (s : str)
| Link (label target : str).

(** The Markdown of a segment. *)
Definition render (g : segment) : str :=
  match g with
  | Plain s => s
  | Link label target => ch "[" :: label ++ ch "]" :: ch "(" :: target ++ [ch ")"]
  end.

(** What a reader sees of a segment once its link is gone. *)
Definition shown (g : segment) : str :=
  match g with
  | Plain s => s
  | Link label _ => label
  end.

Definition nonempty (s : str) : bool :=
  match s with [] => false | _ :: _ => true end.

(** Text without an opening bracket; a link whose label is non-empty and
    has no bracket, and whose target is non-empty and has no closing
    parenthesis. *)
Definition simple (g : segment) : bool :=
  match g with
  | Plain s => forallb (is_not (ch "[")) s
  | Link label target =>
      nonempty label && forallb (is_not (ch "[")) label
      && forallb (is_not (ch "]")) label
      && nonempty target && forallb (is_not (ch ")")) target
  end.

(** No whitespace at the start, none at the end. *)
Definition clean_start (s : str) : Prop :=
  forall c rest, s = c :: rest -> is_space c = false.

Definition clean_end (s : str) : Prop :=
  forall pre c, s = pre ++ [c] -> is_space c = false.

(** *** The worker's entry point *)

(** [a === b] on strings. *)
Fixpoint str_eqb (a b : str) : bool :=
  match a, b with
  | [], [] => true
  | x :: a', y :: b' => N.eqb x y && str_eqb a' b'
  | _, _ => false
  end.

(** What the worker's [fetch] does with a request: hand it to the SSE
    transport or to the streamable transport mounted at a path, or answer
    by itself. *)
Inductive routed : Type :=
| ServeSSE (path : str)
| Serve (path : str)
| Respond (body : str) (status : N).

(** The default export's [fetch], on [new URL(request.url).pathname]. *)
Definition worker_fetch (pathname : str) : routed :=
  if str_eqb pathname (lit "/sse") || str_eqb pathname (lit "/sse/message")
  then ServeSSE (lit "/sse")
  else if str_eqb pathname (lit "/mcp")
  then Serve (lit "/mcp")
  else Respond (lit "Not found") 404.

(** *** Sample worlds *)

Definition respond (st : N) (reason : string) (ctype : option string)
                   (body : str) : Response :=
  {| status := st; statusText := lit reason;
     content_type := option_map lit ctype; text := inr body |}.

(** A world whose readiness promise resolves, whose network answers every
    request with [r] and whose converter answers [md]. *)
Definition serving (r : Response) (md : thrown + str) : World :=
  {| ready := None; fetch := fun _ _ => inr r; convert := fun _ _ => md |}.

Definition some_url : str := lit "https://example.com/page".

Definition unavailable : Response :=
  respond 503 "Service Unavailable" None (lit "try later").

Definition plain_page : Response :=
  respond 200 "OK" (Some "text/plain"%string)
    (lit "see [docs](https://example.com) " ++ [LF; LF; LF; LF; LF] ++ lit " end ").

Definition html_page : Response :=
  respond 200 "OK" (Some "text/html; charset=utf-8"%string) (lit "<p>Hello <a href=x>link</a></p>").

Definition upper_page : Response :=
  respond 200 "OK" (Some "TEXT/HTML"%string) (lit "<p>Hello</p>").

(** A world whose readiness promise rejects. *)
Definition engine_down : World :=
  {| ready := Some (ErrorObj (lit "WebAssembly instantiation failed"));
     fetch := fun _ _ => inr html_page;
     convert := fun _ _ => inr (lit "Hello") |}.

(** A world whose network is unreachable. *)
Definition offline : World :=
  {| ready := None;
     fetch := fun _ _ => inl (ErrorObj (lit "fetch failed"));
     convert := fun _ _ => inr [] |}.

(* ===================================================================== *)
(** ** Running the handler along each of its paths *)
(* ===================================================================== *)

(** Unfolds one invocation down to the oracles of the world. *)
Ltac run_handler :=
  unfold invoke, handler, await_ready, do_fetch, read_text, do_convert,
    bind, try_catch, emit, lift, ret, throw.

Lemma ok_success r : ok r = true <-> success r.
Proof.
  unfold ok, success. rewrite andb_true_iff, !N.leb_le. tauto.
Qed.

Lemma ok_failure r : ok r = false <-> ~ success r.
Proof.
  rewrite <- ok_success. destruct (ok r); split; intros; try discriminate;
    try reflexivity; try tauto; exfalso; auto.
Qed.

Section Paths.

Variable w : World.
Variable url : str.
Variable includeLinks : bool.
Variable maxLength : option Z.

Lemma invoke_not_ready e :
  ready w = Some e ->
  invoke w url includeLinks maxLength = (inl e, []).
Proof.
  intros Hr. run_handler. rewrite Hr. reflexivity.
Qed.

Hypothesis Hready : ready w = None.

Lemma invoke_fetch_throws e :
  fetch w url fetch_init = inl e ->
  invoke w url includeLinks maxLength = (inr (caught e), [EvFetch url]).
Proof.
  intros Hf. run_handler. rewrite Hready, Hf. reflexivity.
Qed.

Variable response : Response.
Hypothesis Hfetch : fetch w url fetch_init = inr response.

Lemma invoke_status :
  ok response = false ->
  invoke w url includeLinks maxLength =
    (inr {| content_text :=
              error_prefix ++ of_N (status response) ++ lit " "
              ++ statusText response;
            isError := Some true |},
     [EvFetch url]).
Proof.
  intros Hok. run_handler. rewrite Hready, Hfetch. simpl. rewrite Hok.
  reflexivity.
Qed.

Hypothesis Hok : ok response = true.

Lemma branch_test :
  negb (includes (contentType_of response) (lit "text/html")) &&
  negb (includes (contentType_of response) (lit "application/xhtml"))
  = negb (is_html response).
Proof.
  unfold is_html. now rewrite negb_orb.
Qed.

Lemma invoke_text_throws e :
  text response = inl e ->
  invoke w url includeLinks maxLength = (inr (caught e), [EvFetch url; EvText]).
Proof.
  intros Ht. run_handler. rewrite Hready, Hfetch. simpl. rewrite Hok. simpl.
  rewrite branch_test. destruct (is_html response); simpl; rewrite Ht;
    reflexivity.
Qed.

Variable body : str.
Hypothesis Htext : text response = inr body.

Lemma invoke_passthrough :
  is_html response = false ->
  invoke w url includeLinks maxLength =
    (inr {| content_text :=
              if over_limit maxLength body
              then substring body 0 (limit maxLength) ++ truncation_suffix
              else body;
            isError := None |},
     [EvFetch url; EvText]).
Proof.
  intros Hh. run_handler. rewrite Hready, Hfetch. simpl. rewrite Hok. simpl.
  rewrite branch_test, Hh. simpl. rewrite Htext. reflexivity.
Qed.

Hypothesis Hhtml : is_html response = true.

Lemma invoke_convert_throws e :
  convert w body convert_options = inl e ->
  invoke w url includeLinks maxLength =
    (inr (caught e), [EvFetch url; EvText; EvConvert body]).
Proof.
  intros Hc. run_handler. rewrite Hready, Hfetch. simpl. rewrite Hok. simpl.
  rewrite branch_test, Hhtml. simpl. rewrite Htext. simpl. rewrite Hc.
  reflexivity.
Qed.

Lemma invoke_html markdown :
  convert w body convert_options = inr markdown ->
  invoke w url includeLinks maxLength =
    (inr {| content_text :=
              if over_limit maxLength (post_processed includeLinks markdown)
              then substring (post_processed includeLinks markdown) 0
                     (limit maxLength) ++ truncation_suffix
              else post_processed includeLinks markdown;
            isError := None |},
     [EvFetch url; EvText; EvConvert body]).
Proof.
  intros Hc. run_handler. rewrite Hready, Hfetch. simpl. rewrite Hok. simpl.
  rewrite branch_test, Hhtml. simpl. rewrite Htext. simpl. rewrite Hc.
  unfold post_processed. destruct includeLinks; reflexivity.
Qed.

End Paths.

(* ===================================================================== *)
(** ** Truncation *)
(* ===================================================================== *)

Lemma substring_cut (s : str) (n : Z) :
  (0 <= n)%Z -> (n <= Js.length s)%Z ->
  substring s 0 n = firstn (Z.to_nat n) s.
Proof.
  intros H0 Hn. unfold substring, clamp.
  replace (Z.min (Z.max 0 0) (Js.length s)) with 0%Z
    by (unfold Js.length in *; lia).
  replace (Z.min (Z.max n 0) (Js.length s)) with n by lia.
  change (Z.to_nat 0) with 0%nat.
  now rewrite Nat.min_0_l, Nat.max_0_l, Nat.sub_0_r.
Qed.

Lemma over_limit_positive (n : Z) (s : str) :
  (0 < n)%Z -> over_limit (Some n) s = (Js.length s >? n)%Z.
Proof.
  intros Hn. simpl. destruct (Z.eqb_spec n 0); [lia | reflexivity].
Qed.

Lemma length_cut (s : str) (n : Z) :
  (0 <= n)%Z -> (n <= Js.length s)%Z ->
  Js.length (firstn (Z.to_nat n) s ++ truncation_suffix)
  = (n + Js.length truncation_suffix)%Z.
Proof.
  intros H0 Hn. unfold Js.length in *.
  rewrite length_app, length_firstn. lia.
Qed.

(** The truncation step, as both branches of the handler write it, for a
    positive limit. *)
Lemma truncation_step (n : Z) (t : str) :
  (0 < n)%Z ->
  let out := if over_limit (Some n) t
             then substring t 0 (limit (Some n)) ++ truncation_suffix
             else t in
  ((Js.length t > n)%Z -> out = firstn (Z.to_nat n) t ++ truncation_suffix) /\
  ((Js.length t <= n)%Z -> out = t) /\
  (Js.length out <= n + Js.length truncation_suffix)%Z.
Proof.
  intros Hn out. subst out. rewrite over_limit_positive by assumption.
  destruct (Z.gtb_spec (Js.length t) n) as [Hgt | Hle].
  - cbn [limit]. rewrite substring_cut by lia. repeat split.
    + lia.
    + rewrite length_cut by lia. lia.
  - repeat split.
    + lia.
    + assert (0 <= Js.length truncation_suffix)%Z by (unfold Js.length; lia).
      lia.
Qed.

(* ===================================================================== *)
(** ** Status, classification and error handling *)
(* ===================================================================== *)

(** C1. A response whose status is outside 200..299 gives [isError: true]
    with the text "Error fetching URL: <status> <statusText>", and the
    converter is not called. *)
Theorem C1_non_success_status_short_circuits
  (w : World) (url : str) (includeLinks : bool) (maxLength : option Z)
  (response : Response) :
  ready w = None ->
  fetch w url fetch_init = inr response ->
  ~ success response ->
  exists log,
    invoke w url includeLinks maxLength =
      (inr {| content_text :=
                lit "Error fetching URL: " ++ of_N (status response)
                ++ lit " " ++ statusText response;
              isError := Some true |}, log)
    /\ converter_invoked log = false.
Proof.
  intros Hr Hf Hs. apply ok_failure in Hs.
  exists [EvFetch url]. split; [| reflexivity].
  now apply invoke_status.
Qed.

Lemma C1_witness_503 :
  exists log,
    invoke (serving unavailable (inr [])) some_url true None =
      (inr {| content_text := lit "Error fetching URL: 503 Service Unavailable";
              isError := Some true |}, log)
    /\ converter_invoked log = false.
Proof.
  apply (@C1_non_success_status_short_circuits
           (serving unavailable (inr [])) some_url true None unavailable).
  - reflexivity.
  - reflexivity.
  - unfold success. simpl. lia.
Defined.

(** C2. A response whose content-type header contains neither "text/html"
    nor "application/xhtml" (a missing or empty header included) is passed
    through: the text is the raw body, cut only by the truncation step; the
    converter is not called and [isError] is absent. *)
Theorem C2_non_html_passthrough
  (w : World) (url : str) (includeLinks : bool) (maxLength : option Z)
  (response : Response) (body : str) :
  ready w = None ->
  fetch w url fetch_init = inr response ->
  success response ->
  text response = inr body ->
  (forall h, content_type response = Some h ->
             includes h (lit "text/html") = false /\
             includes h (lit "application/xhtml") = false) ->
  exists r log,
    invoke w url includeLinks maxLength = (inr r, log)
    /\ isError r = None
    /\ converter_invoked log = false
    /\ (over_limit maxLength body = false -> content_text r = body)
    /\ (over_limit maxLength body = true ->
        content_text r = substring body 0 (limit maxLength) ++ truncation_suffix).
Proof.
  intros Hr Hf Hs Ht Hh. apply ok_success in Hs.
  assert (Hn : is_html response = false).
  { unfold is_html, contentType_of.
    destruct (content_type response) as [[| c h] |] eqn:E; try reflexivity.
    destruct (Hh _ eq_refl) as [H1 H2]. now rewrite H1, H2. }
  eexists. eexists. split.
  - eapply invoke_passthrough; eassumption.
  - cbn [isError content_text]. repeat split.
    + intros ->. reflexivity.
    + intros ->. reflexivity.
Qed.

Lemma C2_witness_plain :
  exists r log,
    invoke (serving plain_page (inr [])) some_url false (Some 8%Z) = (inr r, log)
    /\ isError r = None
    /\ converter_invoked log = false
    /\ content_text r = lit "see [doc" ++ truncation_suffix.
Proof.
  destruct (@C2_non_html_passthrough (serving plain_page (inr [])) some_url
              false (Some 8%Z) plain_page
              (lit "see [docs](https://example.com) " ++ [LF; LF; LF; LF; LF]
               ++ lit " end "))
    as (r & log & Hi & He & Hc & _ & Hcut).
  - reflexivity.
  - reflexivity.
  - unfold success. simpl. lia.
  - reflexivity.
  - intros h Hh. inversion Hh. subst h. split; reflexivity.
  - exists r, log. repeat split; try assumption.
    rewrite Hcut; reflexivity.
Defined.

(** C3. With a positive [maxLength = N], text longer than [N] comes back as
    its first [N] code units followed by the truncation suffix, text of
    length at most [N] comes back unchanged, and the result is never longer
    than [N] plus the suffix; the same on the passthrough path and on the
    HTML path. *)
Theorem C3_truncation
  (w : World) (url : str) (includeLinks : bool) (N : Z)
  (response : Response) (body t : str) :
  (0 < N)%Z ->
  ready w = None ->
  fetch w url fetch_init = inr response ->
  success response ->
  text response = inr body ->
  reaches_truncation w includeLinks response body t ->
  exists r log,
    invoke w url includeLinks (Some N) = (inr r, log)
    /\ ((Js.length t > N)%Z ->
        content_text r = firstn (Z.to_nat N) t ++ truncation_suffix)
    /\ ((Js.length t <= N)%Z -> content_text r = t)
    /\ (Js.length (content_text r) <= N + Js.length truncation_suffix)%Z.
Proof.
  intros HN Hr Hf Hs Ht Hreach. apply ok_success in Hs.
  unfold reaches_truncation in Hreach.
  destruct (is_html response) eqn:Hh.
  - destruct Hreach as (md & Hc & ->).
    eexists. eexists. split.
    + eapply invoke_html; eassumption.
    + cbn [content_text]. now apply truncation_step.
  - subst t. eexists. eexists. split.
    + eapply invoke_passthrough; eassumption.
    + cbn [content_text]. now apply truncation_step.
Qed.

Lemma C3_witness_both_paths :
  (exists r log,
     invoke (serving plain_page (inr [])) some_url true (Some 3%Z) = (inr r, log)
     /\ content_text r = lit "see" ++ truncation_suffix)
  /\
  (exists r log,
     invoke (serving html_page (inr (lit "Hello [link](x)"))) some_url true
       (Some 7%Z) = (inr r, log)
     /\ content_text r = lit "Hello [" ++ truncation_suffix).
Proof.
  split.
  - destruct (@C3_truncation (serving plain_page (inr [])) some_url true 3%Z
                plain_page
                (lit "see [docs](https://example.com) " ++ [LF; LF; LF; LF; LF]
                 ++ lit " end ")
                (lit "see [docs](https://example.com) " ++ [LF; LF; LF; LF; LF]
                 ++ lit " end "))
      as (r & log & Hi & Hcut & _ & _).
    + lia.
    + reflexivity.
    + reflexivity.
    + unfold success. simpl. lia.
    + reflexivity.
    + reflexivity.
    + exists r, log. split; [assumption |]. rewrite Hcut; [reflexivity |].
      vm_compute. reflexivity.
  - destruct (@C3_truncation (serving html_page (inr (lit "Hello [link](x)")))
                some_url true 7%Z html_page
                (lit "<p>Hello <a href=x>link</a></p>")
                (lit "Hello [link](x)"))
      as (r & log & Hi & Hcut & _ & _).
    + lia.
    + reflexivity.
    + reflexivity.
    + unfold success. simpl. lia.
    + reflexivity.
    + exists (lit "Hello [link](x)"). split; reflexivity.
    + exists r, log. split; [assumption |]. rewrite Hcut; [reflexivity |].
      vm_compute. reflexivity.
Defined.

(** C4, as amended.  Once the readiness promise has resolved, the
    invocation always returns a result, and a failure of [fetch], of
    [response.text()] or of the converter comes back as [isError: true] with
    the text "Error fetching URL: <message>". *)
Theorem C4_failures_after_readiness_are_caught
  (w : World) (url : str) (includeLinks : bool) (maxLength : option Z) :
  ready w = None ->
  (exists r log, invoke w url includeLinks maxLength = (inr r, log))
  /\ (forall e, fetch w url fetch_init = inl e ->
        fst (invoke w url includeLinks maxLength) =
          inr {| content_text := lit "Error fetching URL: " ++ errorMessage e;
                 isError := Some true |})
  /\ (forall response e,
        fetch w url fetch_init = inr response -> success response ->
        text response = inl e ->
        fst (invoke w url includeLinks maxLength) =
          inr {| content_text := lit "Error fetching URL: " ++ errorMessage e;
                 isError := Some true |})
  /\ (forall response body e,
        fetch w url fetch_init = inr response -> success response ->
        text response = inr body -> is_html response = true ->
        convert w body convert_options = inl e ->
        fst (invoke w url includeLinks maxLength) =
          inr {| content_text := lit "Error fetching URL: " ++ errorMessage e;
                 isError := Some true |}).
Proof.
  intros Hr. repeat split.
  - destruct (fetch w url fetch_init) as [e | response] eqn:Hf.
    { eexists. eexists. eapply invoke_fetch_throws; eassumption. }
    destruct (ok response) eqn:Hok.
    2:{ eexists. eexists. eapply invoke_status; eassumption. }
    destruct (text response) as [e | body] eqn:Ht.
    { eexists. eexists. eapply invoke_text_throws; eassumption. }
    destruct (is_html response) eqn:Hh.
    2:{ eexists. eexists. eapply invoke_passthrough; eassumption. }
    destruct (convert w body convert_options) as [e | md] eqn:Hc.
    + eexists. eexists. eapply invoke_convert_throws; eassumption.
    + eexists. eexists. eapply invoke_html; eassumption.
  - intros e Hf. erewrite invoke_fetch_throws by eassumption. reflexivity.
  - intros response e Hf Hs Ht. apply ok_success in Hs.
    erewrite invoke_text_throws by eassumption. reflexivity.
  - intros response body e Hf Hs Ht Hh Hc. apply ok_success in Hs.
    erewrite invoke_convert_throws by eassumption. reflexivity.
Qed.

Lemma C4_witness_offline :
  fst (invoke offline some_url true None) =
    inr {| content_text := lit "Error fetching URL: fetch failed";
           isError := Some true |}.
Proof.
  destruct (@C4_failures_after_readiness_are_caught offline some_url true None)
    as (_ & Hfetch & _).
  - reflexivity.
  - apply (Hfetch (ErrorObj (lit "fetch failed"))). reflexivity.
Defined.

(** C4, as stated, fails: a rejection of the readiness promise is awaited
    before the [try] and leaves the invocation as an exception. *)
Lemma C4_readiness_rejection_escapes :
  invoke engine_down some_url true None =
    (inl (ErrorObj (lit "WebAssembly instantiation failed")), [])
  /\ ~ (forall w url includeLinks maxLength,
          exists r log, invoke w url includeLinks maxLength = (inr r, log)).
Proof.
  split; [reflexivity |].
  intros H. destruct (H engine_down some_url true None) as (r & log & E).
  discriminate E.
Qed.

(** C5, as amended.  Classification is a case-sensitive substring test:
    the converter is called, on the body, exactly when the content-type
    header contains "text/html" or "application/xhtml" in that lower-case
    spelling; otherwise the body is passed through. *)
Theorem C5_classification_is_case_sensitive
  (w : World) (url : str) (includeLinks : bool) (maxLength : option Z)
  (response : Response) (body : str) :
  ready w = None ->
  fetch w url fetch_init = inr response ->
  success response ->
  text response = inr body ->
  snd (invoke w url includeLinks maxLength) =
    if includes (contentType_of response) (lit "text/html")
       || includes (contentType_of response) (lit "application/xhtml")
    then [EvFetch url; EvText; EvConvert body]
    else [EvFetch url; EvText].
Proof.
  intros Hr Hf Hs Ht. apply ok_success in Hs.
  fold (is_html response). destruct (is_html response) eqn:Hh.
  - destruct (convert w body convert_options) as [e | md] eqn:Hc.
    + erewrite invoke_convert_throws by eassumption. reflexivity.
    + erewrite invoke_html by eassumption. reflexivity.
  - erewrite invoke_passthrough by eassumption. reflexivity.
Qed.

Lemma C5_witness_html :
  snd (invoke (serving html_page (inr (lit "Hello [link](x)"))) some_url true None)
  = [EvFetch some_url; EvText; EvConvert (lit "<p>Hello <a href=x>link</a></p>")].
Proof.
  apply (@C5_classification_is_case_sensitive
           (serving html_page (inr (lit "Hello [link](x)"))) some_url true None
           html_page (lit "<p>Hello <a href=x>link</a></p>")).
  - reflexivity.
  - reflexivity.
  - unfold success. simpl. lia.
  - reflexivity.
Defined.

(** C5, as stated, fails: the header "TEXT/HTML" contains "text/html" up to
    letter case, and the body is passed through without conversion. *)
Lemma C5_upper_case_is_passed_through :
  includes (toLowerCase (contentType_of upper_page)) (lit "text/html") = true
  /\ invoke (serving upper_page (inr (lit "Hello"))) some_url true None =
       (inr {| content_text := lit "<p>Hello</p>"; isError := None |},
        [EvFetch some_url; EvText])
  /\ converter_invoked
       (snd (invoke (serving upper_page (inr (lit "Hello"))) some_url true None))
     = false.
Proof.
  repeat split.
Qed.

(** C8. When the response has a 2xx status, its body is read and the
    converter does not throw, the result carries no [isError], whatever
    [maxLength] is. *)
Theorem C8_success_is_never_an_error
  (w : World) (url : str) (includeLinks : bool) (maxLength : option Z)
  (response : Response) (body : str) :
  ready w = None ->
  fetch w url fetch_init = inr response ->
  success response ->
  text response = inr body ->
  (forall e, convert w body convert_options <> inl e) ->
  exists r log,
    invoke w url includeLinks maxLength = (inr r, log) /\ isError r = None.
Proof.
  intros Hr Hf Hs Ht Hc. apply ok_success in Hs.
  destruct (is_html response) eqn:Hh.
  - destruct (convert w body convert_options) as [e | md] eqn:E.
    + now destruct (Hc e).
    + eexists. eexists. split; [eapply invoke_html; eassumption |].
      reflexivity.
  - eexists. eexists. split; [eapply invoke_passthrough; eassumption |].
    reflexivity.
Qed.

Lemma C8_witness_cut_to_one :
  exists r log,
    invoke (serving html_page (inr (lit "Hello [link](x)"))) some_url false
      (Some 1%Z) = (inr r, log)
    /\ isError r = None.
Proof.
  apply (@C8_success_is_never_an_error
           (serving html_page (inr (lit "Hello [link](x)"))) some_url false
           (Some 1%Z) html_page (lit "<p>Hello <a href=x>link</a></p>")).
  - reflexivity.
  - reflexivity.
  - unfold success. simpl. lia.
  - reflexivity.
  - intros e. discriminate.
Defined.

(** C9. With [maxLength = 0] the guard is falsy and the truncation step is
    skipped on both paths: the whole text is returned, however long. *)
Theorem C9_zero_limit_skips_truncation
  (w : World) (url : str) (includeLinks : bool)
  (response : Response) (body t : str) :
  ready w = None ->
  fetch w url fetch_init = inr response ->
  success response ->
  text response = inr body ->
  reaches_truncation w includeLinks response body t ->
  exists log,
    invoke w url includeLinks (Some 0%Z) =
      (inr {| content_text := t; isError := None |}, log).
Proof.
  intros Hr Hf Hs Ht Hreach. apply ok_success in Hs.
  unfold reaches_truncation in Hreach.
  destruct (is_html response) eqn:Hh.
  - destruct Hreach as (md & Hc & ->).
    eexists. erewrite invoke_html by eassumption. reflexivity.
  - subst t. eexists. erewrite invoke_passthrough by eassumption.
    reflexivity.
Qed.

Lemma C9_witness_both_paths :
  (exists log,
     invoke (serving plain_page (inr [])) some_url true (Some 0%Z) =
       (inr {| content_text :=
                 lit "see [docs](https://example.com) "
                 ++ [LF; LF; LF; LF; LF] ++ lit " end ";
               isError := None |}, log))
  /\
  (exists log,
     invoke (serving html_page (inr (lit "Hello [link](x)"))) some_url true
       (Some 0%Z) =
       (inr {| content_text := lit "Hello [link](x)"; isError := None |}, log)).
Proof.
  split.
  - apply (@C9_zero_limit_skips_truncation (serving plain_page (inr []))
             some_url true plain_page
             (lit "see [docs](https://example.com) " ++ [LF; LF; LF; LF; LF]
              ++ lit " end ")).
    + reflexivity.
    + reflexivity.
    + unfold success. simpl. lia.
    + reflexivity.
    + reflexivity.
  - apply (@C9_zero_limit_skips_truncation
             (serving html_page (inr (lit "Hello [link](x)"))) some_url true
             html_page (lit "<p>Hello <a href=x>link</a></p>")).
    + reflexivity.
    + reflexivity.
    + unfold success. simpl. lia.
    + reflexivity.
    + exists (lit "Hello [link](x)"). split; reflexivity.
Defined.

(* ===================================================================== *)
(** ** The matcher on the handler's expressions *)
(* ===================================================================== *)

Section Repetition.

Variable p : cu -> bool.

Lemma run_le_length s : run p s <= List.length s.
Proof.
  induction s as [| c s IH]; simpl; [lia |]. destruct (p c); simpl; lia.
Qed.

Lemma run_skipn_run s : run p (skipn (run p s) s) = 0.
Proof.
  induction s as [| c s IH]; simpl; [reflexivity |].
  destruct (p c) eqn:E; simpl; [assumption | now rewrite E].
Qed.

Lemma run_all s : forallb p s = true -> run p s = List.length s.
Proof.
  induction s as [| c s IH]; simpl; [reflexivity |].
  intros H. apply andb_true_iff in H as [-> H]. now rewrite IH.
Qed.

Lemma firstn_run_all s : forallb p (firstn (run p s) s) = true.
Proof.
  induction s as [| c s IH]; simpl; [reflexivity |].
  destruct (p c) eqn:E; simpl; [now rewrite E | reflexivity].
Qed.

(** A repetition whose continuation accepts wherever it is called stops at
    the end of the run. *)
Lemma rep_final (n i : nat) (s : str) (caps : list str) :
  rep p n i s caps (fun j _ caps' => Some (j, caps'))
  = if n <=? run p s then Some (i + run p s, caps) else None.
Proof.
  revert n i. induction s as [| c s IH]; intros n i; simpl.
  - destruct n; simpl; [now rewrite Nat.add_0_r | reflexivity].
  - destruct (p c) eqn:E.
    + rewrite IH. destruct n as [| n]; simpl.
      * now rewrite Nat.add_succ_r.
      * destruct (n <=? run p s); [now rewrite Nat.add_succ_r | reflexivity].
    + destruct n; simpl; [now rewrite Nat.add_0_r | reflexivity].
Qed.

(** A repetition whose continuation refuses every input that still begins
    with a code unit of the class has one place to stop: the end of the
    run. *)
Lemma rep_blocked (k : cont) (n i : nat) (s : str) (caps : list str) :
  (forall j c s' caps', p c = true -> k j (c :: s') caps' = None) ->
  rep p n i s caps k
  = if n <=? run p s then k (i + run p s) (skipn (run p s) s) caps else None.
Proof.
  intros Hk. revert n i. induction s as [| c s IH]; intros n i; simpl.
  - destruct n; simpl; [now rewrite Nat.add_0_r | reflexivity].
  - destruct (p c) eqn:E.
    + rewrite IH. cbn [skipn].
      assert (Hstop : match n with
                      | 0 => k i (c :: s) caps
                      | S _ => None
                      end = None).
      { destruct n; [now apply Hk | reflexivity]. }
      rewrite Hstop. destruct n as [| n]; simpl.
      * rewrite Nat.add_succ_r.
        now destruct (k (S (i + run p s)) (skipn (run p s) s) caps).
      * destruct (n <=? run p s); [| reflexivity].
        rewrite Nat.add_succ_r.
        now destruct (k (S (i + run p s)) (skipn (run p s) s) caps).
    + destruct n; simpl; [now rewrite Nat.add_0_r | reflexivity].
Qed.

End Repetition.

(** *** Global replacement *)

Section GlobalReplace.

Variable r : regex.
Variable tpl : list piece.

Lemma replace_from_skip (n : nat) : forall (i : nat) (s : str),
  n <= List.length s ->
  replace_from r tpl i s n = replace_from r tpl (i + n) (skipn n s) 0.
Proof.
  induction n as [| n IH]; intros i s Hn.
  - now rewrite Nat.add_0_r.
  - destruct s as [| c s]; simpl in Hn; [lia |].
    cbn [replace_from skipn]. rewrite IH by lia. f_equal. lia.
Qed.

Lemma replace_from_no_match (i : nat) (c : cu) (s : str) :
  match_at r i (c :: s) = None ->
  replace_from r tpl i (c :: s) 0 = c :: replace_from r tpl (S i) s 0.
Proof.
  intros H. cbn [replace_from]. now rewrite H.
Qed.

Lemma replace_from_match (i n : nat) (s : str) (caps : list str) :
  match_at r i s = Some (i + S n, caps) ->
  S n <= List.length s ->
  replace_from r tpl i s 0
  = expand tpl caps ++ replace_from r tpl (i + S n) (skipn (S n) s) 0.
Proof.
  intros H Hn. destruct s as [| c s]; simpl in Hn; [lia |].
  cbn [replace_from]. rewrite H.
  replace (i + S n =? i) with false by (symmetry; apply Nat.eqb_neq; lia).
  replace (i + S n - i - 1) with n by lia.
  rewrite replace_from_skip by lia. cbn [skipn].
  do 2 f_equal. lia.
Qed.

(** Replacement only rearranges code units of the input and of the
    template. *)
Lemma replace_from_Forall (P : cu -> Prop) :
  (forall caps, Forall P (expand tpl caps)) ->
  forall (s : str) (i n : nat),
    Forall P s -> Forall P (replace_from r tpl i s n).
Proof.
  intros Ht. induction s as [| c s IH]; intros i n Hs.
  - destruct n; cbn [replace_from]; [| constructor].
    destruct (match_at r i []) as [[j caps] |]; [| constructor].
    rewrite app_nil_r. apply Ht.
  - inversion Hs as [| ? ? Hc Hs']; subst.
    destruct n; cbn [replace_from]; [| now apply IH].
    destruct (match_at r i (c :: s)) as [[j caps] |].
    + apply Forall_app. split; [apply Ht |].
      destruct (j =? i); [constructor; [assumption |] |]; now apply IH.
    + constructor; [assumption | now apply IH].
Qed.

End GlobalReplace.

(* ===================================================================== *)
(** ** Link stripping *)
(* ===================================================================== *)

Lemma nonempty_leb (A : Type) (l : list A) :
  l <> [] -> (1 <=? List.length l) = true.
Proof.
  destruct l; [contradiction | reflexivity].
Qed.

Lemma skipn_length_app (A : Type) (l l' : list A) :
  skipn (List.length l) (l ++ l') = l'.
Proof.
  induction l; simpl; auto.
Qed.

Lemma skipn_app_length (A : Type) (a b : list A) (n : nat) :
  skipn (List.length a + n) (a ++ b) = skipn n b.
Proof.
  induction a; simpl; auto.
Qed.

Lemma firstn_length_app (A : Type) (l l' : list A) :
  firstn (List.length l) (l ++ l') = l.
Proof.
  induction l; simpl; [reflexivity | now f_equal].
Qed.

Lemma forallb_firstn (p : cu -> bool) (n : nat) (s : str) :
  forallb p s = true -> forallb p (firstn n s) = true.
Proof.
  intros H. rewrite <- (firstn_skipn n s), forallb_app in H.
  now apply andb_true_iff in H.
Qed.

Lemma forallb_skipn (p : cu -> bool) (n : nat) (s : str) :
  forallb p s = true -> forallb p (skipn n s) = true.
Proof.
  intros H. rewrite <- (firstn_skipn n s), forallb_app in H.
  now apply andb_true_iff in H.
Qed.

Lemma run_app_stop (p : cu -> bool) (l : str) (c : cu) (rest : str) :
  forallb p l = true -> p c = false -> run p (l ++ c :: rest) = List.length l.
Proof.
  intros Hl Hc. induction l as [| a l IH]; simpl in *.
  - now rewrite Hc.
  - apply andb_true_iff in Hl as [-> Hl]. now rewrite IH.
Qed.

(** The expression can only match at an opening bracket. *)
Lemma link_needs_bracket (i : nat) (s : str) :
  starts_with [ch "["] s = false -> match_at link_re i s = None.
Proof.
  destruct s as [| c s]; [reflexivity |].
  unfold match_at, link_re. cbn [m starts_with]. unfold is_.
  rewrite andb_true_r. now intros ->.
Qed.

Lemma no_bracket_no_match (i : nat) (c : cu) (s : str) :
  is_not (ch "[") c = true -> match_at link_re i (c :: s) = None.
Proof.
  intros Hc. apply link_needs_bracket. cbn [starts_with].
  unfold is_not in Hc. now destruct (N.eqb (ch "[") c).
Qed.

(** An empty pair of brackets is no match: the label needs a code unit. *)
Lemma empty_label_no_match (i : nat) (s : str) :
  match_at link_re i (ch "[" :: ch "]" :: s) = None.
Proof. reflexivity. Qed.

(** A link with a bracket-free label and a parenthesis-free target is
    matched whole, and its label captured. *)
Lemma link_match (i : nat) (l t rest : str) :
  l <> [] -> forallb (is_not (ch "]")) l = true ->
  t <> [] -> forallb (is_not (ch ")")) t = true ->
  match_at link_re i (ch "[" :: l ++ ch "]" :: ch "(" :: t ++ ch ")" :: rest)
  = Some (i + S (List.length l + List.length t + 3), [l]).
Proof.
  intros Hl Hl' Ht Ht'. unfold match_at, link_re. cbn [m].
  change (is_ (ch "[") (ch "[")) with true. cbv iota.
  rewrite rep_blocked.
  2:{ intros j c s' caps' Hc. cbn [m]. unfold is_not in Hc. unfold is_.
      now destruct (N.eqb (ch "]") c). }
  rewrite run_app_stop by (assumption || reflexivity).
  rewrite (nonempty_leb Hl), skipn_length_app. cbn [m].
  change (is_ (ch "]") (ch "]")) with true.
  change (is_ (ch "(") (ch "(")) with true. cbv iota.
  rewrite rep_blocked.
  2:{ intros j c s' caps' Hc. cbn [m]. unfold is_not in Hc. unfold is_.
      now destruct (N.eqb (ch ")") c). }
  rewrite run_app_stop by (assumption || reflexivity).
  rewrite (nonempty_leb Ht), skipn_length_app. cbn [m].
  change (is_ (ch ")") (ch ")")) with true. cbv iota.
  replace (S i + List.length l - S i) with (List.length l) by lia.
  rewrite firstn_length_app. cbn [List.app]. do 2 f_equal. lia.
Qed.

Lemma strip_plain (s rest : str) : forall i,
  forallb (is_not (ch "[")) s = true ->
  replace_from link_re [Ref 1] i (s ++ rest) 0
  = s ++ replace_from link_re [Ref 1] (i + List.length s) rest 0.
Proof.
  induction s as [| c s IH]; intros i Hs; cbn [List.app List.length].
  - now rewrite Nat.add_0_r.
  - cbn [forallb] in Hs. apply andb_true_iff in Hs as [Hc Hs].
    rewrite replace_from_no_match by now apply no_bracket_no_match.
    rewrite IH by assumption.
    now replace (S i + List.length s) with (i + S (List.length s)) by lia.
Qed.

Lemma strip_link (i : nat) (l t rest : str) :
  l <> [] -> forallb (is_not (ch "]")) l = true ->
  t <> [] -> forallb (is_not (ch ")")) t = true ->
  replace_from link_re [Ref 1] i
    (ch "[" :: l ++ ch "]" :: ch "(" :: t ++ ch ")" :: rest) 0
  = l ++ replace_from link_re [Ref 1]
           (i + S (List.length l + List.length t + 3)) rest 0.
Proof.
  intros Hl Hl' Ht Ht'.
  rewrite (@replace_from_match link_re [Ref 1] i
             (List.length l + List.length t + 3) _ [l]).
  - cbn [expand nth Nat.pred]. rewrite app_nil_r. do 2 f_equal.
    cbn [skipn].
    replace (List.length l + List.length t + 3)
      with (List.length l + S (S (List.length t + 1))) by lia.
    rewrite skipn_app_length. cbn [skipn]. now rewrite skipn_app_length.
  - now apply link_match.
  - cbn [List.length]. rewrite length_app. cbn [List.length].
    rewrite length_app. cbn [List.length]. lia.
Qed.

Lemma exec_no_bracket (s : str) : forall i,
  forallb (is_not (ch "[")) s = true -> exec link_re i s = None.
Proof.
  induction s as [| c s IH]; intros i Hs; [reflexivity |].
  cbn [forallb] in Hs. apply andb_true_iff in Hs as [Hc Hs].
  cbn [exec]. rewrite no_bracket_no_match by assumption. now apply IH.
Qed.

Lemma exec_skip_plain (a b : str) : forall i,
  forallb (is_not (ch "[")) a = true ->
  exec link_re i (a ++ b) = exec link_re (i + List.length a) b.
Proof.
  induction a as [| c a IH]; intros i Ha; cbn [List.app List.length].
  - now rewrite Nat.add_0_r.
  - cbn [forallb] in Ha. apply andb_true_iff in Ha as [Hc Ha].
    cbn [exec]. rewrite no_bracket_no_match by assumption.
    rewrite IH by assumption.
    now replace (S i + List.length a) with (i + S (List.length a)) by lia.
Qed.

(** The truncation suffix opens a bracket but is no link. *)
Lemma exec_suffix (i : nat) : exec link_re i truncation_suffix = None.
Proof. reflexivity. Qed.

Lemma nonempty_neq (s : str) : nonempty s = true -> s <> [].
Proof.
  destruct s; [discriminate | discriminate].
Qed.

(** Stripping a sequence of simple segments leaves the text and the
    labels. *)
Lemma strip_segments (segs : list segment) : forall i,
  forallb simple segs = true ->
  replace_from link_re [Ref 1] i (flat_map render segs) 0
  = flat_map shown segs.
Proof.
  induction segs as [| g segs IH]; intros i Hs; [reflexivity |].
  cbn [forallb] in Hs. apply andb_true_iff in Hs as [Hg Hs].
  cbn [flat_map]. destruct g as [s | l t]; cbn [render shown simple] in *.
  - rewrite strip_plain by assumption. now rewrite IH.
  - repeat (apply andb_true_iff in Hg as [Hg ?]).
    cbn [List.app]. rewrite <- !app_assoc. cbn [List.app]. rewrite <- !app_assoc.
    cbn [List.app]. rewrite strip_link by (assumption || now apply nonempty_neq).
    now rewrite IH.
Qed.

Lemma shown_no_bracket (segs : list segment) :
  forallb simple segs = true ->
  forallb (is_not (ch "[")) (flat_map shown segs) = true.
Proof.
  induction segs as [| g segs IH]; intros Hs; [reflexivity |].
  cbn [forallb] in Hs. apply andb_true_iff in Hs as [Hg Hs].
  cbn [flat_map]. rewrite forallb_app, IH by assumption.
  destruct g as [s | l t]; cbn [shown simple] in *.
  - now rewrite Hg.
  - repeat (apply andb_true_iff in Hg as [Hg ?]). now rewrite andb_true_r.
Qed.

(* ===================================================================== *)
(** ** Whitespace cleanup *)
(* ===================================================================== *)

(** *** Max 3 consecutive newlines *)

Lemma match_at_newlines (i : nat) (s : str) :
  match_at newlines_re i s
  = if 4 <=? run (is_ LF) s then Some (i + run (is_ LF) s, []) else None.
Proof.
  unfold match_at, newlines_re. cbn [m]. apply rep_final.
Qed.

Lemma max_newlines_step (i : nat) (s : str) :
  replace_from newlines_re [Lit [LF; LF; LF]] i s 0
  = if 4 <=? run (is_ LF) s
    then [LF; LF; LF]
         ++ replace_from newlines_re [Lit [LF; LF; LF]] (i + run (is_ LF) s)
              (skipn (run (is_ LF) s) s) 0
    else match s with
         | [] => []
         | c :: s' => c :: replace_from newlines_re [Lit [LF; LF; LF]] (S i) s' 0
         end.
Proof.
  destruct (4 <=? run (is_ LF) s) eqn:E.
  - apply Nat.leb_le in E. pose proof (run_le_length (is_ LF) s) as Hlen.
    destruct (run (is_ LF) s) as [| n] eqn:R; [lia |].
    rewrite (@replace_from_match newlines_re [Lit [LF; LF; LF]] i n s []).
    + reflexivity.
    + rewrite match_at_newlines, R.
      now replace (4 <=? S n) with true by (symmetry; apply Nat.leb_le; lia).
    + assumption.
  - destruct s as [| c s].
    + reflexivity.
    + apply replace_from_no_match. now rewrite match_at_newlines, E.
Qed.

Lemma starts_with_repeat (c : cu) (n : nat) : forall s,
  starts_with (repeat c n) s = (n <=? run (is_ c) s).
Proof.
  induction n as [| n IH]; intros s; [reflexivity |].
  destruct s as [| a s]; [reflexivity |]. cbn [repeat starts_with run].
  unfold is_ at 1. destruct (N.eqb c a); cbn [andb]; [apply IH | reflexivity].
Qed.

Lemma includes_four (s : str) :
  includes s [LF; LF; LF; LF]
  = (4 <=? run (is_ LF) s)
    || match s with [] => false | _ :: s' => includes s' [LF; LF; LF; LF] end.
Proof.
  destruct s; cbn [includes]; now rewrite (starts_with_repeat LF 4).
Qed.

Lemma run_max_newlines (n : nat) : forall (s : str) (i : nat),
  List.length s <= n ->
  run (is_ LF) (replace_from newlines_re [Lit [LF; LF; LF]] i s 0)
  = Nat.min (run (is_ LF) s) 3.
Proof.
  induction n as [| n IH]; intros s i Hn.
  - destruct s; [reflexivity | simpl in Hn; lia].
  - rewrite max_newlines_step.
    destruct (4 <=? run (is_ LF) s) eqn:E.
    + apply Nat.leb_le in E. pose proof (run_le_length (is_ LF) s) as Hlen.
      cbn [List.app run]. change (is_ LF LF) with true. cbv iota.
      rewrite IH.
      * rewrite run_skipn_run. lia.
      * rewrite length_skipn. lia.
    + apply Nat.leb_gt in E. destruct s as [| c s]; [reflexivity |].
      cbn [run] in *. destruct (is_ LF c).
      * rewrite IH by (simpl in Hn; lia). lia.
      * reflexivity.
Qed.

Lemma max_newlines_no_four (n : nat) : forall (s : str) (i : nat),
  List.length s <= n ->
  includes (replace_from newlines_re [Lit [LF; LF; LF]] i s 0)
    [LF; LF; LF; LF] = false.
Proof.
  induction n as [| n IH]; intros s i Hn.
  - destruct s; [reflexivity | simpl in Hn; lia].
  - rewrite max_newlines_step.
    destruct (4 <=? run (is_ LF) s) eqn:E.
    + apply Nat.leb_le in E. pose proof (run_le_length (is_ LF) s) as Hlen.
      assert (Hr : run (is_ LF)
                     (replace_from newlines_re [Lit [LF; LF; LF]]
                        (i + run (is_ LF) s) (skipn (run (is_ LF) s) s) 0) = 0).
      { rewrite (@run_max_newlines n) by (rewrite length_skipn; lia).
        now rewrite run_skipn_run. }
      cbn [List.app]. do 3 (rewrite includes_four; cbn [run];
        change (is_ LF LF) with true; cbv iota).
      rewrite Hr. cbn [Nat.leb orb]. apply IH. rewrite length_skipn. lia.
    + apply Nat.leb_gt in E. destruct s as [| c s]; [reflexivity |].
      rewrite includes_four.
      pose proof (@run_max_newlines (S n) (c :: s) i Hn) as Hr.
      rewrite max_newlines_step in Hr.
      replace (4 <=? run (is_ LF) (c :: s)) with false in Hr
        by (symmetry; apply Nat.leb_gt; lia).
      rewrite Hr, IH by (simpl in Hn; lia).
      rewrite orb_false_r. apply Nat.leb_gt. lia.
Qed.

Lemma max_newlines_fixed (s : str) : forall i,
  includes s [LF; LF; LF; LF] = false ->
  replace_from newlines_re [Lit [LF; LF; LF]] i s 0 = s.
Proof.
  induction s as [| c s IH]; intros i H; [reflexivity |].
  rewrite includes_four in H. apply orb_false_iff in H as [H1 H2].
  rewrite max_newlines_step, H1. now rewrite IH.
Qed.

Lemma space_or_lf_is_space (c : cu) : space_or_lf c = is_space c.
Proof.
  unfold space_or_lf. destruct (N.eqb_spec LF c) as [<- | _].
  - reflexivity.
  - apply orb_false_r.
Qed.

Lemma run_zero_clean (s : str) : run space_or_lf s = 0 <-> clean_start s.
Proof.
  unfold clean_start. destruct s as [| c s]; cbn [run].
  - split; [discriminate | reflexivity].
  - split.
    + intros H a rest E. inversion E; subst.
      rewrite <- space_or_lf_is_space.
      destruct (space_or_lf a); [discriminate | reflexivity].
    + intros H. specialize (H c s eq_refl).
      rewrite <- space_or_lf_is_space in H. now rewrite H.
Qed.

(** *** Trim start *)

Lemma match_at_trim_start (i : nat) (s : str) :
  match_at trim_start_re i s
  = if i =? 0
    then if 1 <=? run space_or_lf s then Some (i + run space_or_lf s, [])
         else None
    else None.
Proof.
  unfold match_at, trim_start_re. cbn [m].
  destruct (i =? 0); [apply rep_final | reflexivity].
Qed.

Lemma exec_trim_start_later (s : str) : forall i,
  exec trim_start_re (S i) s = None.
Proof.
  induction s as [| c s IH]; intros i; cbn [exec];
    rewrite match_at_trim_start; cbn [Nat.eqb]; [reflexivity | apply IH].
Qed.

Lemma trim_start_closed (s : str) :
  trim_start s = skipn (run space_or_lf s) s.
Proof.
  unfold trim_start, replace.
  destruct s as [| c s]; [reflexivity |].
  cbn [exec]. rewrite match_at_trim_start. cbn [Nat.eqb].
  destruct (1 <=? run space_or_lf (c :: s)) eqn:E.
  - reflexivity.
  - rewrite exec_trim_start_later. apply Nat.leb_gt in E.
    now replace (run space_or_lf (c :: s)) with 0 by lia.
Qed.

(** *** Trim end *)

Lemma skipn_run_stops (p : cu -> bool) (s : str) :
  forallb p s = false -> exists c rest, skipn (run p s) s = c :: rest.
Proof.
  induction s as [| c s IH]; cbn [forallb run]; [discriminate |].
  destruct (p c); cbn [andb skipn]; [exact IH | intros _; eauto].
Qed.

Lemma match_at_trim_end (i : nat) (s : str) :
  match_at trim_end_re i s
  = if nonempty s && forallb space_or_lf s
    then Some (i + List.length s, [])
    else None.
Proof.
  unfold match_at, trim_end_re. cbn [m].
  rewrite rep_blocked by reflexivity.
  destruct (forallb space_or_lf s) eqn:E.
  - rewrite (run_all _ _ E), skipn_all. cbn [m].
    destruct s; reflexivity.
  - rewrite andb_false_r.
    destruct (skipn_run_stops _ _ E) as (c & rest & ->). cbn [m].
    now destruct (1 <=? run space_or_lf s).
Qed.

Lemma clean_end_cons (c : cu) (s : str) :
  s <> [] -> clean_end s -> clean_end (c :: s).
Proof.
  intros Hs H pre x E. destruct pre as [| a pre].
  - inversion E; subst. contradiction.
  - inversion E; subst. now apply (H pre x).
Qed.

Lemma clean_end_single (c : cu) : is_space c = false -> clean_end [c].
Proof.
  intros Hc pre x E. destruct pre as [| a pre].
  - now inversion E; subst.
  - inversion E as [[Ea E']]. now destruct pre.
Qed.

(** The expression matches at the first index from which only whitespace
    follows. *)
Lemma exec_trim_end (s : str) : forall i,
  match exec trim_end_re i s with
  | Some (a, b, caps) =>
      exists pre suf,
        s = pre ++ suf /\ a = i + List.length pre /\ b = i + List.length s
        /\ suf <> [] /\ forallb space_or_lf suf = true /\ clean_end pre
  | None => clean_end s
  end.
Proof.
  induction s as [| c s IH]; intros i.
  - cbn. intros pre x E. now destruct pre.
  - cbn [exec]. rewrite match_at_trim_end. cbn [nonempty andb].
    destruct (forallb space_or_lf (c :: s)) eqn:E.
    + exists [], (c :: s). repeat split; try assumption.
      * cbn. lia.
      * discriminate.
      * intros pre x E'. now destruct pre.
    + specialize (IH (S i)).
      destruct (exec trim_end_re (S i) s) as [[[a b] caps] |].
      * destruct IH as (pre & suf & -> & -> & -> & Hn & Hsuf & Hpre).
        exists (c :: pre), suf. repeat split; try assumption.
        -- cbn. lia.
        -- cbn. lia.
        -- destruct pre as [| a pre].
           ++ apply clean_end_single. cbn [List.app forallb] in E.
              rewrite Hsuf, andb_true_r in E.
              now rewrite <- space_or_lf_is_space.
           ++ apply clean_end_cons; [discriminate | assumption].
      * destruct s as [| a s].
        -- apply clean_end_single. cbn [forallb] in E.
           rewrite andb_true_r in E. now rewrite <- space_or_lf_is_space.
        -- apply clean_end_cons; [discriminate | assumption].
Qed.

Lemma trim_end_spec (s : str) :
  exists suf,
    s = trim_end s ++ suf /\ forallb space_or_lf suf = true
    /\ clean_end (trim_end s).
Proof.
  unfold trim_end, replace. pose proof (exec_trim_end s 0) as H.
  destruct (exec trim_end_re 0 s) as [[[a b] caps] |].
  - destruct H as (pre & suf & -> & -> & -> & Hn & Hsuf & Hpre).
    cbn [Nat.add expand]. rewrite firstn_length_app, skipn_all, app_nil_r.
    now exists suf.
  - exists []. now rewrite app_nil_r.
Qed.

Lemma trim_end_fixed (s : str) : clean_end s -> trim_end s = s.
Proof.
  intros Hs. unfold trim_end, replace. pose proof (exec_trim_end s 0) as H.
  destruct (exec trim_end_re 0 s) as [[[a b] caps] |]; [| reflexivity].
  destruct H as (pre & suf & -> & _ & _ & Hn & Hsuf & _).
  destruct (exists_last Hn) as (suf' & x & ->).
  rewrite forallb_app in Hsuf. apply andb_true_iff in Hsuf as [_ Hx].
  cbn [forallb] in Hx. rewrite andb_true_r, space_or_lf_is_space in Hx.
  rewrite app_assoc in Hs. specialize (Hs _ _ eq_refl). congruence.
Qed.

(** *** The three replacements together *)

Lemma starts_with_app (sub l b : str) :
  starts_with sub l = true -> starts_with sub (l ++ b) = true.
Proof.
  revert l. induction sub as [| a sub IH]; intros l H; [reflexivity |].
  destruct l as [| c l]; [discriminate |]. cbn [List.app starts_with] in *.
  apply andb_true_iff in H as [-> H]. now apply IH.
Qed.

Lemma includes_suffix (sub : str) (n : nat) : forall s,
  includes s sub = false -> includes (skipn n s) sub = false.
Proof.
  induction n as [| n IH]; intros s H; [assumption |].
  destruct s as [| c s]; [assumption |]. cbn [skipn]. apply IH.
  cbn [includes] in H. now apply orb_false_iff in H.
Qed.

Lemma includes_prefix (sub b : str) : forall a,
  includes (a ++ b) sub = false -> includes a sub = false.
Proof.
  assert (Hs : forall l, starts_with sub (l ++ b) = false ->
                         starts_with sub l = false).
  { intros l H. destruct (starts_with sub l) eqn:E; [| reflexivity].
    now rewrite (starts_with_app _ _ b E) in H. }
  induction a as [| c a IH]; intros H.
  - cbn [includes]. rewrite orb_false_r. apply (Hs []).
    destruct b; cbn [List.app includes] in H; now apply orb_false_iff in H.
  - cbn [List.app includes] in *. apply orb_false_iff in H as [H1 H2].
    rewrite (Hs (c :: a) H1). now apply IH.
Qed.

Lemma cleanup_parts (s : str) :
  exists suf,
    skipn (run space_or_lf (max_newlines s)) (max_newlines s)
      = cleanup s ++ suf
    /\ clean_end (cleanup s).
Proof.
  unfold cleanup. rewrite trim_start_closed.
  destruct (trim_end_spec
              (skipn (run space_or_lf (max_newlines s)) (max_newlines s)))
    as (suf & E & _ & Hc).
  now exists suf.
Qed.

Lemma cleanup_clean_start (s : str) : clean_start (cleanup s).
Proof.
  destruct (cleanup_parts s) as (suf & E & _).
  apply run_zero_clean.
  pose proof (run_skipn_run space_or_lf (max_newlines s)) as H.
  rewrite E in H. destruct (cleanup s) as [| c t]; [reflexivity |].
  cbn [List.app run] in *. now destruct (space_or_lf c).
Qed.

Lemma cleanup_no_four (s : str) :
  includes (cleanup s) [LF; LF; LF; LF] = false.
Proof.
  destruct (cleanup_parts s) as (suf & E & _).
  apply includes_prefix with (b := suf). rewrite <- E.
  apply includes_suffix. unfold max_newlines, replace_all.
  now apply max_newlines_no_four with (n := List.length s).
Qed.

Lemma cleanup_fixed (t : str) :
  includes t [LF; LF; LF; LF] = false -> clean_start t -> clean_end t ->
  cleanup t = t.
Proof.
  intros H4 Hs He. unfold cleanup.
  unfold max_newlines, replace_all. rewrite max_newlines_fixed by assumption.
  rewrite trim_start_closed. apply run_zero_clean in Hs. rewrite Hs.
  cbn [skipn]. now apply trim_end_fixed.
Qed.

(** Cleanup only keeps or drops code units, and writes line feeds. *)
Lemma cleanup_forallb (p : cu -> bool) (s : str) :
  p LF = true -> forallb p s = true -> forallb p (cleanup s) = true.
Proof.
  intros Hlf Hs.
  assert (Hm : forallb p (max_newlines s) = true).
  { apply forallb_forall. apply Forall_forall.
    apply replace_from_Forall.
    - intros caps. cbn [expand]. rewrite app_nil_r.
      repeat constructor; assumption.
    - apply Forall_forall. now apply forallb_forall. }
  destruct (cleanup_parts s) as (suf & E & _).
  apply (forallb_skipn p (run space_or_lf (max_newlines s))) in Hm.
  rewrite E, forallb_app in Hm. now apply andb_true_iff in Hm.
Qed.

(** C7. The whitespace cleanup is idempotent, and its result has no
    whitespace at either end and no four line feeds in a row. *)
Theorem C7_cleanup_is_idempotent (s : str) :
  cleanup (cleanup s) = cleanup s
  /\ (forall c rest, cleanup s = c :: rest -> is_space c = false)
  /\ (forall pre c, cleanup s = pre ++ [c] -> is_space c = false)
  /\ includes (cleanup s) [LF; LF; LF; LF] = false.
Proof.
  destruct (cleanup_parts s) as (suf & _ & He).
  pose proof (cleanup_clean_start s) as Hs.
  pose proof (cleanup_no_four s) as H4.
  repeat split; try assumption.
  now apply cleanup_fixed.
Qed.

(* ===================================================================== *)
(** ** Links in the final output *)
(* ===================================================================== *)

(** Text without an opening bracket has no link after the truncation step
    either. *)
Lemma no_link_after_truncation (maxLength : option Z) (t : str) :
  forallb (is_not (ch "[")) t = true ->
  test link_re
    (if over_limit maxLength t
     then substring t 0 (limit maxLength) ++ truncation_suffix
     else t) = false.
Proof.
  intros Ht. unfold test. destruct (over_limit maxLength t).
  - rewrite exec_skip_plain, exec_suffix; [reflexivity |].
    unfold substring. now apply forallb_firstn, forallb_skipn.
  - now rewrite exec_no_bracket.
Qed.

(** C6, as amended.  Link stripping is one textual pass with the
    expression of the source.  When the converter's output is made of text
    without an opening bracket and of links whose label is non-empty and
    bracket-free and whose target is non-empty and free of closing
    parentheses, every link is rewritten to its label and the final text
    holds no match of the expression. *)
Theorem C6_simple_links_are_stripped
  (w : World) (url : str) (maxLength : option Z)
  (response : Response) (body : str) (segs : list segment) :
  ready w = None ->
  fetch w url fetch_init = inr response ->
  success response ->
  text response = inr body ->
  is_html response = true ->
  convert w body convert_options = inr (flat_map render segs) ->
  forallb simple segs = true ->
  strip_links (flat_map render segs) = flat_map shown segs
  /\ exists r log,
       invoke w url false maxLength = (inr r, log)
       /\ test link_re (content_text r) = false.
Proof.
  intros Hr Hf Hs Ht Hh Hc Hsegs. apply ok_success in Hs.
  assert (E : strip_links (flat_map render segs) = flat_map shown segs)
    by now apply strip_segments.
  split; [exact E |].
  eexists. eexists. split; [eapply invoke_html; eassumption |].
  cbn [content_text]. apply no_link_after_truncation.
  unfold post_processed. rewrite E.
  apply cleanup_forallb; [reflexivity | now apply shown_no_bracket].
Qed.

Lemma C6_witness_two_links :
  strip_links (lit "Hello [link](https://x.com) and [more](/y).")
    = lit "Hello link and more."
  /\ exists r log,
       invoke (serving html_page
                 (inr (lit "Hello [link](https://x.com) and [more](/y).")))
         some_url false (Some 9%Z) = (inr r, log)
       /\ test link_re (content_text r) = false.
Proof.
  apply (@C6_simple_links_are_stripped
           (serving html_page
              (inr (lit "Hello [link](https://x.com) and [more](/y).")))
           some_url (Some 9%Z) html_page
           (lit "<p>Hello <a href=x>link</a></p>")
           [Plain (lit "Hello "); Link (lit "link") (lit "https://x.com");
            Plain (lit " and "); Link (lit "more") (lit "/y");
            Plain (lit ".")]).
  - reflexivity.
  - reflexivity.
  - unfold success. simpl. lia.
  - reflexivity.
  - reflexivity.
  - reflexivity.
  - reflexivity.
Defined.

(** C6, as stated, fails: the converter output ["[[a](b)](b)"] contains the
    link ["[a](b)"], and with [includeLinks = false] the final text is that
    very link; a target with parentheses is stripped to more than the
    label. *)
Lemma C6_nested_link_survives :
  invoke (serving html_page (inr (lit "[[a](b)](b)"))) some_url false None
    = (inr {| content_text := lit "[a](b)"; isError := None |},
       [EvFetch some_url; EvText;
        EvConvert (lit "<p>Hello <a href=x>link</a></p>")])
  /\ includes (lit "[[a](b)](b)") (lit "[a](b)") = true
  /\ test link_re (lit "[a](b)") = true
  /\ strip_links (lit "[a](b(c)d)") = lit "ad)".
Proof.
  repeat split.
Qed.

(** C10. With [includeLinks = false], a link with an empty label is left
    as it is by link stripping, and reaches the final text. *)
Theorem C10_empty_label_is_kept (target : str) :
  forallb (is_not (ch "[")) target = true ->
  strip_links (lit "[](" ++ target ++ lit ")") = lit "[](" ++ target ++ lit ")"
  /\ invoke (serving html_page (inr (lit "[](url)"))) some_url false None
     = (inr {| content_text := lit "[](url)"; isError := None |},
        [EvFetch some_url; EvText;
         EvConvert (lit "<p>Hello <a href=x>link</a></p>")]).
Proof.
  intros Ht. split; [| reflexivity].
  unfold strip_links, replace_all.
  change (lit "[](" ++ target ++ lit ")")
    with (ch "[" :: ch "]" :: ([ch "("] ++ target ++ [ch ")"])).
  rewrite replace_from_no_match by apply empty_label_no_match.
  rewrite <- (app_nil_r (ch "]" :: [ch "("] ++ target ++ [ch ")"])).
  rewrite strip_plain; [reflexivity |].
  cbn [List.app forallb]. rewrite forallb_app, Ht. reflexivity.
Qed.

Lemma C10_witness_url :
  strip_links (lit "[](url)") = lit "[](url)".
Proof.
  apply (@C10_empty_label_is_kept (lit "url")). reflexivity.
Defined.

(* ===================================================================== *)
(** ** Scenarios *)
(* ===================================================================== *)

(** A JSON body [{"a":1}] with [maxLength = 3]. *)
Example scenario_json_cut :
  let body := lit "{" ++ [34%N] ++ lit "a" ++ [34%N] ++ lit ":1}" in
  fst (invoke (serving (respond 200 "OK" (Some "application/json"%string) body)
                 (inr []))
         some_url true (Some 3%Z))
  = inr {| content_text := lit "{" ++ [34%N] ++ lit "a" ++ truncation_suffix;
           isError := None |}.
Proof. reflexivity. Qed.

(** A negative [maxLength] is truthy and below every length: nothing of the
    text is kept. *)
Example scenario_negative_limit :
  fst (invoke (serving plain_page (inr [])) some_url true (Some (-5)%Z))
  = inr {| content_text := truncation_suffix; isError := None |}.
Proof. reflexivity. Qed.

(** Links are kept when [includeLinks] is true; whitespace is cleaned up
    either way. *)
Example scenario_links_kept :
  fst (invoke (serving html_page
                 (inr ([LF; LF] ++ lit "Hello [link](x)" ++ [LF; LF; LF; LF; LF]
                       ++ lit "bye " ++ [LF])))
         some_url true None)
  = inr {| content_text := lit "Hello [link](x)" ++ [LF; LF; LF] ++ lit "bye";
           isError := None |}.
Proof. reflexivity. Qed.

(* ===================================================================== *)
(** ** Further properties of the handler and of the worker *)
(* ===================================================================== *)

(** The effects of one invocation come in one order: one request, then at
    most one body read, then at most one conversion, of the body read. *)
Theorem effects_in_order
  (w : World) (url : str) (includeLinks : bool) (maxLength : option Z) :
  ready w = None ->
  let log := snd (invoke w url includeLinks maxLength) in
  (log = [EvFetch url]
   /\ ((exists e, fetch w url fetch_init = inl e)
       \/ exists response,
            fetch w url fetch_init = inr response /\ ~ success response))
  \/ (log = [EvFetch url; EvText]
      /\ exists response,
           fetch w url fetch_init = inr response /\ success response
           /\ ((exists e, text response = inl e) \/ is_html response = false))
  \/ (exists response body,
        fetch w url fetch_init = inr response /\ success response
        /\ text response = inr body /\ is_html response = true
        /\ log = [EvFetch url; EvText; EvConvert body]).
Proof.
  intros Hr log. subst log.
  destruct (fetch w url fetch_init) as [e | response] eqn:Hf.
  { left. erewrite invoke_fetch_throws by eassumption.
    split; [reflexivity | left; now exists e]. }
  destruct (ok response) eqn:Hok.
  2:{ left. erewrite invoke_status by eassumption.
      apply ok_failure in Hok.
      split; [reflexivity | right; now exists response]. }
  pose proof (proj1 (ok_success response) Hok) as Hs.
  destruct (text response) as [e | body] eqn:Ht.
  { right. left. erewrite invoke_text_throws by eassumption.
    split; [reflexivity |]. exists response.
    split; [reflexivity |]. split; [assumption |]. left. now exists e. }
  destruct (is_html response) eqn:Hh.
  2:{ right. left. erewrite invoke_passthrough by eassumption.
      split; [reflexivity |]. exists response.
      split; [reflexivity |]. split; [assumption |]. now right. }
  right. right. exists response, body.
  destruct (convert w body convert_options) as [e | md] eqn:Hc.
  - erewrite invoke_convert_throws by eassumption. tauto.
  - erewrite invoke_html by eassumption. tauto.
Qed.

Lemma effects_in_order_witness :
  exists body,
    snd (invoke (serving html_page (inr (lit "Hello [link](x)"))) some_url
           true None)
    = [EvFetch some_url; EvText; EvConvert body].
Proof.
  destruct (@effects_in_order (serving html_page (inr (lit "Hello [link](x)")))
              some_url true None eq_refl)
    as [[E _] | [[E _] | (response & body & _ & _ & _ & _ & E)]].
  - discriminate E.
  - discriminate E.
  - now exists body.
Defined.


Lemma starts_with_app_self (p s : str) : starts_with p (p ++ s) = true.
Proof.
  induction p as [| c p IH]; [reflexivity |].
  cbn [List.app starts_with]. now rewrite N.eqb_refl, IH.
Qed.

(** A result either is an error whose text begins "Error fetching URL: ",
    or carries no [isError] at all and comes from a 2xx response whose body
    was read and, on the HTML path, converted. *)
Theorem result_is_error_or_success
  (w : World) (url : str) (includeLinks : bool) (maxLength : option Z)
  (r : ToolResult) (log : list event) :
  invoke w url includeLinks maxLength = (inr r, log) ->
  (isError r = Some true
   /\ starts_with (lit "Error fetching URL: ") (content_text r) = true)
  \/ (isError r = None
      /\ exists response body,
           fetch w url fetch_init = inr response /\ success response
           /\ text response = inr body
           /\ (is_html response = true ->
               exists markdown,
                 convert w body convert_options = inr markdown)).
Proof.
  intros Hi.
  destruct (ready w) as [e0 |] eqn:Hr.
  { rewrite (invoke_not_ready _ _ _ _ Hr) in Hi. discriminate. }
  destruct (fetch w url fetch_init) as [e | response] eqn:Hf.
  { erewrite invoke_fetch_throws in Hi by eassumption.
    injection Hi as <- _. left. split; [reflexivity |].
    apply (starts_with_app_self error_prefix). }
  destruct (ok response) eqn:Hok.
  2:{ erewrite invoke_status in Hi by eassumption.
      injection Hi as <- _. left. split; [reflexivity |].
      apply (starts_with_app_self error_prefix). }
  pose proof (proj1 (ok_success response) Hok) as Hs.
  destruct (text response) as [e | body] eqn:Ht.
  { erewrite invoke_text_throws in Hi by eassumption.
    injection Hi as <- _. left. split; [reflexivity |].
    apply (starts_with_app_self error_prefix). }
  destruct (is_html response) eqn:Hh.
  2:{ erewrite invoke_passthrough in Hi by eassumption.
      injection Hi as <- _. right. split; [reflexivity |].
      exists response, body.
      repeat (split; [first [reflexivity | assumption] |]). congruence. }
  destruct (convert w body convert_options) as [e | md] eqn:Hc.
  - erewrite invoke_convert_throws in Hi by eassumption.
    injection Hi as <- _. left. split; [reflexivity |].
    apply (starts_with_app_self error_prefix).
  - erewrite invoke_html in Hi by eassumption.
    injection Hi as <- _. right. split; [reflexivity |].
    exists response, body.
    repeat (split; [first [reflexivity | assumption] |]).
    intros _. now exists md.
Qed.

Lemma result_is_error_or_success_witness :
  starts_with (lit "Error fetching URL: ") (lit "Error fetching URL: fetch failed")
  = true.
Proof.
  destruct (@result_is_error_or_success offline some_url true None
              (caught (ErrorObj (lit "fetch failed"))) [EvFetch some_url]
              eq_refl)
    as [[_ H] | [H _]].
  - exact H.
  - discriminate H.
Defined.


Lemma over_limit_negative (n : Z) (s : str) :
  (n < 0)%Z -> over_limit (Some n) s = true.
Proof.
  intros Hn. cbn [over_limit]. unfold Js.length.
  destruct (Z.eqb_spec n 0); [lia |]. cbn [negb andb].
  apply Z.gtb_lt. lia.
Qed.

Lemma substring_negative (n : Z) (s : str) :
  (n < 0)%Z -> substring s 0 n = [].
Proof.
  intros Hn. unfold substring, clamp, Js.length.
  replace (Z.min (Z.max n 0) (Z.of_nat (List.length s))) with 0%Z by lia.
  replace (Z.min (Z.max 0 0) (Z.of_nat (List.length s))) with 0%Z by lia.
  reflexivity.
Qed.

(** A negative [maxLength] passes the guard and cuts at zero: on both paths
    the whole text is replaced by the truncation suffix. *)
Theorem negative_limit_keeps_nothing
  (w : World) (url : str) (includeLinks : bool) (n : Z)
  (response : Response) (body t : str) :
  (n < 0)%Z ->
  ready w = None ->
  fetch w url fetch_init = inr response ->
  success response ->
  text response = inr body ->
  reaches_truncation w includeLinks response body t ->
  fst (invoke w url includeLinks (Some n))
  = inr {| content_text := [LF; LF] ++ lit "[Content truncated...]";
           isError := None |}.
Proof.
  intros Hn Hr Hf Hs Ht Hreach. apply ok_success in Hs.
  unfold reaches_truncation in Hreach.
  destruct (is_html response) eqn:Hh.
  - destruct Hreach as (md & Hc & ->).
    erewrite invoke_html by eassumption. cbn [fst limit].
    now rewrite over_limit_negative, substring_negative.
  - subst t. erewrite invoke_passthrough by eassumption. cbn [fst limit].
    now rewrite over_limit_negative, substring_negative.
Qed.

Lemma negative_limit_witness :
  fst (invoke (serving html_page (inr (lit "Hello [link](x)"))) some_url true
         (Some (-1)%Z))
  = inr {| content_text := [LF; LF] ++ lit "[Content truncated...]";
           isError := None |}.
Proof.
  apply (@negative_limit_keeps_nothing
           (serving html_page (inr (lit "Hello [link](x)"))) some_url true
           (-1)%Z html_page (lit "<p>Hello <a href=x>link</a></p>")
           (lit "Hello [link](x)")).
  - lia.
  - reflexivity.
  - reflexivity.
  - unfold success. simpl. lia.
  - reflexivity.
  - exists (lit "Hello [link](x)"). split; reflexivity.
Defined.


Lemma includes_app_mid (sub pre post : str) :
  includes (pre ++ sub ++ post) sub = true.
Proof.
  induction pre as [| c pre IH].
  - cbn [List.app]. destruct (sub ++ post) eqn:E; cbn [includes];
      rewrite <- E, starts_with_app_self; reflexivity.
  - cbn [List.app includes]. rewrite IH. apply orb_true_r.
Qed.

Lemma contentType_of_nonempty (response : Response) (h : str) :
  content_type response = Some h -> contentType_of response = h.
Proof.
  unfold contentType_of. intros ->. now destruct h.
Qed.

(** The header is searched, not parsed: a content-type that holds one of the
    two tokens anywhere, before parameters or inside a longer type, sends
    the body to the converter. *)
Theorem token_anywhere_is_html
  (w : World) (url : str) (includeLinks : bool) (maxLength : option Z)
  (response : Response) (body pre post : str) :
  ready w = None ->
  fetch w url fetch_init = inr response ->
  success response ->
  text response = inr body ->
  content_type response = Some (pre ++ lit "text/html" ++ post)
  \/ content_type response = Some (pre ++ lit "application/xhtml" ++ post) ->
  snd (invoke w url includeLinks maxLength)
  = [EvFetch url; EvText; EvConvert body].
Proof.
  intros Hr Hf Hs Ht Hct. apply ok_success in Hs.
  assert (Hh : is_html response = true).
  { unfold is_html. destruct Hct as [E | E];
      rewrite (contentType_of_nonempty _ E), includes_app_mid;
      [reflexivity | apply orb_true_r]. }
  destruct (convert w body convert_options) as [e | md] eqn:Hc.
  - erewrite invoke_convert_throws by eassumption. reflexivity.
  - erewrite invoke_html by eassumption. reflexivity.
Qed.

Lemma token_anywhere_witness :
  snd (invoke (serving (respond 200 "OK"
                          (Some "x-application/xhtml+xml"%string) (lit "<p/>"))
                 (inr (lit "text")))
         some_url true None)
  = [EvFetch some_url; EvText; EvConvert (lit "<p/>")].
Proof.
  apply (@token_anywhere_is_html
           (serving (respond 200 "OK" (Some "x-application/xhtml+xml"%string)
                       (lit "<p/>"))
              (inr (lit "text")))
           some_url true None
           (respond 200 "OK" (Some "x-application/xhtml+xml"%string)
              (lit "<p/>"))
           (lit "<p/>") (lit "x-") (lit "+xml")).
  - reflexivity.
  - reflexivity.
  - unfold success. simpl. lia.
  - reflexivity.
  - right. reflexivity.
Defined.


(** [includeLinks] matters only after a conversion: an invocation that did
    not call the converter gives the same outcome for both values. *)
Theorem includeLinks_only_matters_after_conversion
  (w : World) (url : str) (maxLength : option Z) :
  converter_invoked (snd (invoke w url true maxLength)) = false ->
  invoke w url false maxLength = invoke w url true maxLength.
Proof.
  intros Hn.
  destruct (ready w) as [e0 |] eqn:Hr.
  { now do 2 (erewrite invoke_not_ready by eassumption). }
  destruct (fetch w url fetch_init) as [e | response] eqn:Hf.
  { now do 2 (erewrite invoke_fetch_throws by eassumption). }
  destruct (ok response) eqn:Hok.
  2:{ now do 2 (erewrite invoke_status by eassumption). }
  destruct (text response) as [e | body] eqn:Ht.
  { now do 2 (erewrite invoke_text_throws by eassumption). }
  destruct (is_html response) eqn:Hh.
  2:{ now do 2 (erewrite invoke_passthrough by eassumption). }
  destruct (convert w body convert_options) as [e | md] eqn:Hc.
  - now do 2 (erewrite invoke_convert_throws by eassumption).
  - erewrite invoke_html in Hn by eassumption. discriminate Hn.
Qed.

Lemma includeLinks_witness_plain :
  invoke (serving plain_page (inr [])) some_url false (Some 8%Z)
  = invoke (serving plain_page (inr [])) some_url true (Some 8%Z).
Proof.
  apply (@includeLinks_only_matters_after_conversion
           (serving plain_page (inr [])) some_url (Some 8%Z)).
  reflexivity.
Defined.


(** *** Replacement where nothing matches *)

Lemma replace_from_none (r : regex) (tpl : list piece) (s : str) : forall i,
  exec r i s = None -> replace_from r tpl i s 0 = s.
Proof.
  induction s as [| c s IH]; intros i H; cbn [exec] in H.
  - cbn [replace_from]. now destruct (match_at r i []) as [[j caps] |].
  - destruct (match_at r i (c :: s)) as [[j caps] |] eqn:E; [discriminate |].
    rewrite replace_from_no_match by assumption. now rewrite IH.
Qed.

(** Text in which the link expression matches nowhere is left as it is,
    so the two values of [includeLinks] give the same text. *)
Theorem strip_links_without_links (markdown : str) :
  test link_re markdown = false ->
  strip_links markdown = markdown
  /\ post_processed false markdown = post_processed true markdown.
Proof.
  intros H. unfold test in H.
  assert (E : strip_links markdown = markdown).
  { unfold strip_links, replace_all. apply replace_from_none.
    now destruct (exec link_re 0 markdown). }
  split; [exact E |]. unfold post_processed. now rewrite E.
Qed.

Lemma strip_links_without_links_witness :
  strip_links (lit "a [note] (see below) and [x]()") 
  = lit "a [note] (see below) and [x]()".
Proof.
  apply (@strip_links_without_links (lit "a [note] (see below) and [x]()")).
  reflexivity.
Defined.


(** *** What the link expression matches *)

Lemma length_firstn_run (p : cu -> bool) (s : str) :
  List.length (firstn (run p s) s) = run p s.
Proof.
  rewrite length_firstn. pose proof (run_le_length p s). lia.
Qed.

Lemma link_match_shape (i j : nat) (s : str) (caps : list str) :
  match_at link_re i s = Some (j, caps) ->
  exists l t rest,
    s = ch "[" :: l ++ ch "]" :: ch "(" :: t ++ ch ")" :: rest
    /\ l <> [] /\ forallb (is_not (ch "]")) l = true
    /\ t <> [] /\ forallb (is_not (ch ")")) t = true
    /\ j = i + S (List.length l + List.length t + 3)
    /\ caps = [l].
Proof.
  unfold match_at, link_re. cbn [m]. intros H.
  destruct s as [| c s1]; [discriminate |].
  destruct (is_ (ch "[") c) eqn:Ec; [| discriminate].
  apply N.eqb_eq in Ec. subst c.
  rewrite rep_blocked in H.
  2:{ intros j' c s' caps' Hc. cbn [m]. unfold is_not in Hc. unfold is_.
      now destruct (N.eqb (ch "]") c). }
  destruct (1 <=? run (is_not (ch "]")) s1) eqn:E1; [| discriminate].
  apply Nat.leb_le in E1. cbn [m] in H.
  destruct (skipn (run (is_not (ch "]")) s1) s1) as [| c1 [| c2 s2]] eqn:K1;
    try discriminate.
  { now destruct (is_ (ch "]") c1). }
  destruct (is_ (ch "]") c1) eqn:Ec1; [| discriminate].
  destruct (is_ (ch "(") c2) eqn:Ec2; [| discriminate].
  apply N.eqb_eq in Ec1, Ec2. subst c1 c2.
  rewrite rep_blocked in H.
  2:{ intros j' c s' caps' Hc. cbn [m]. unfold is_not in Hc. unfold is_.
      now destruct (N.eqb (ch ")") c). }
  destruct (1 <=? run (is_not (ch ")")) s2) eqn:E2; [| discriminate].
  apply Nat.leb_le in E2. cbn [m] in H.
  destruct (skipn (run (is_not (ch ")")) s2) s2) as [| c3 rest] eqn:K2;
    [discriminate |].
  destruct (is_ (ch ")") c3) eqn:Ec3; [| discriminate].
  apply N.eqb_eq in Ec3. subst c3.
  injection H as <- <-.
  exists (firstn (run (is_not (ch "]")) s1) s1),
         (firstn (run (is_not (ch ")")) s2) s2), rest.
  rewrite !length_firstn_run.
  repeat split.
  - f_equal. rewrite <- (firstn_skipn (run (is_not (ch "]")) s1) s1) at 1.
    rewrite K1. do 3 f_equal.
    rewrite <- (firstn_skipn (run (is_not (ch ")")) s2) s2) at 1.
    now rewrite K2.
  - intros E. apply (f_equal (@List.length cu)) in E.
    rewrite length_firstn_run in E. cbn [List.length] in E. lia.
  - apply firstn_run_all.
  - intros E. apply (f_equal (@List.length cu)) in E.
    rewrite length_firstn_run in E. cbn [List.length] in E. lia.
  - apply firstn_run_all.
  - change 93%N with (ch "]"). change 41%N with (ch ")"). lia.
  - cbn [List.app]. change 93%N with (ch "]"). do 2 f_equal. lia.
Qed.

(** The expression of the source matches at an index exactly when the text
    there is [[label](target)] with a non-empty label free of closing
    brackets and a non-empty target free of closing parentheses; the match
    ends after the first closing parenthesis and captures the label. *)
Theorem link_match_iff (i j : nat) (s : str) (caps : list str) :
  match_at link_re i s = Some (j, caps) <->
  exists l t rest,
    s = ch "[" :: l ++ ch "]" :: ch "(" :: t ++ ch ")" :: rest
    /\ l <> [] /\ forallb (is_not (ch "]")) l = true
    /\ t <> [] /\ forallb (is_not (ch ")")) t = true
    /\ j = i + S (List.length l + List.length t + 3)
    /\ caps = [l].
Proof.
  split; [apply link_match_shape |].
  intros (l & t & rest & -> & Hl & Hl' & Ht & Ht' & -> & ->).
  now apply link_match.
Qed.

Lemma strip_links_length_from (n : nat) : forall (s : str) (i : nat),
  List.length s <= n ->
  List.length (replace_from link_re [Ref 1] i s 0) <= List.length s.
Proof.
  induction n as [| n IH]; intros s i Hn.
  - destruct s; [cbn; lia | simpl in Hn; lia].
  - destruct (match_at link_re i s) as [[j caps] |] eqn:E.
    + destruct (link_match_shape _ _ E)
        as (l & t & rest & -> & Hl & Hl' & Ht & Ht' & -> & ->).
      rewrite strip_link by assumption.
      cbn [List.length] in *. rewrite !length_app in *.
      cbn [List.length] in *. rewrite !length_app in *.
      cbn [List.length] in *.
      specialize (IH rest (i + S (List.length l + List.length t + 3))).
      lia.
    + destruct s as [| c s]; [cbn; lia |].
      rewrite replace_from_no_match by assumption.
      cbn [List.length] in *. specialize (IH s (S i)). lia.
Qed.

Lemma strip_links_length (markdown : str) :
  List.length (strip_links markdown) <= List.length markdown.
Proof.
  unfold strip_links, replace_all.
  now apply strip_links_length_from with (n := List.length markdown).
Qed.

(** Link stripping never makes the text longer. *)
Theorem strip_links_never_lengthens (markdown : str) :
  (Js.length (strip_links markdown) <= Js.length markdown)%Z.
Proof.
  unfold Js.length. pose proof (strip_links_length markdown). lia.
Qed.

Lemma forallb_space (s : str) : forallb space_or_lf s = forallb is_space s.
Proof.
  induction s as [| c s IH]; [reflexivity |].
  cbn [forallb]. now rewrite IH, space_or_lf_is_space.
Qed.

Lemma max_newlines_length_from (n : nat) : forall (s : str) (i : nat),
  List.length s <= n ->
  List.length (replace_from newlines_re [Lit [LF; LF; LF]] i s 0)
  <= List.length s.
Proof.
  induction n as [| n IH]; intros s i Hn.
  - destruct s; [cbn; lia | simpl in Hn; lia].
  - rewrite max_newlines_step.
    destruct (4 <=? run (is_ LF) s) eqn:E.
    + apply Nat.leb_le in E. pose proof (run_le_length (is_ LF) s) as Hlen.
      rewrite length_app. cbn [List.length].
      specialize (IH (skipn (run (is_ LF) s) s) (i + run (is_ LF) s)).
      rewrite length_skipn in IH. lia.
    + destruct s as [| c s]; [cbn; lia |]. cbn [List.length] in *.
      specialize (IH s (S i)). lia.
Qed.

Lemma max_newlines_index (n : nat) : forall (s : str) (i j : nat),
  List.length s <= n ->
  replace_from newlines_re [Lit [LF; LF; LF]] i s 0
  = replace_from newlines_re [Lit [LF; LF; LF]] j s 0.
Proof.
  induction n as [| n IH]; intros s i j Hn.
  - destruct s; [reflexivity | simpl in Hn; lia].
  - rewrite (max_newlines_step i), (max_newlines_step j).
    destruct (4 <=? run (is_ LF) s) eqn:E.
    + apply Nat.leb_le in E. pose proof (run_le_length (is_ LF) s) as Hlen.
      f_equal. apply IH. rewrite length_skipn. lia.
    + destruct s as [| c s]; [reflexivity |]. f_equal. apply IH.
      simpl in Hn. lia.
Qed.

Lemma max_newlines_from (i : nat) (s : str) :
  replace_from newlines_re [Lit [LF; LF; LF]] i s 0 = max_newlines s.
Proof.
  unfold max_newlines, replace_all.
  now apply max_newlines_index with (n := List.length s).
Qed.

Lemma cleanup_structure (s : str) :
  exists pre suf,
    max_newlines s = pre ++ cleanup s ++ suf
    /\ forallb is_space pre = true /\ forallb is_space suf = true.
Proof.
  unfold cleanup. rewrite trim_start_closed.
  destruct (trim_end_spec
              (skipn (run space_or_lf (max_newlines s)) (max_newlines s)))
    as (suf & E & Hsuf & _).
  exists (firstn (run space_or_lf (max_newlines s)) (max_newlines s)), suf.
  rewrite <- E, firstn_skipn. repeat split.
  - rewrite <- forallb_space. apply firstn_run_all.
  - now rewrite <- forallb_space.
Qed.

Lemma cleanup_length (s : str) :
  List.length (cleanup s) <= List.length s.
Proof.
  destruct (cleanup_structure s) as (pre & suf & E & _).
  pose proof (@max_newlines_length_from (List.length s) s 0 (le_n _)) as Hm.
  fold (replace_all newlines_re [Lit [LF; LF; LF]] s) in Hm.
  fold (max_newlines s) in Hm. rewrite E, !length_app in Hm. lia.
Qed.

(** The cleanup removes a whitespace prefix and a whitespace suffix from
    the newline-capped text and nothing else, and never makes the text
    longer. *)
Theorem cleanup_trims_the_ends (s : str) :
  (exists pre suf,
     max_newlines s = pre ++ cleanup s ++ suf
     /\ forallb is_space pre = true /\ forallb is_space suf = true)
  /\ (Js.length (cleanup s) <= Js.length s)%Z.
Proof.
  split; [apply cleanup_structure |].
  unfold Js.length. pose proof (cleanup_length s). lia.
Qed.

(** The texts the cleanup leaves unchanged are exactly those without four
    line feeds in a row and without whitespace at either end. *)
Theorem cleanup_fixed_points (t : str) :
  cleanup t = t <->
  includes t [LF; LF; LF; LF] = false /\ clean_start t /\ clean_end t.
Proof.
  split.
  - intros E. rewrite <- E. repeat split.
    + apply cleanup_no_four.
    + apply cleanup_clean_start.
    + now destruct (cleanup_parts t) as (suf & _ & He).
  - intros (H4 & Hs & He). now apply cleanup_fixed.
Qed.

Lemma space_is_no_bracket (s : str) :
  forallb is_space s = true -> forallb (is_not (ch "[")) s = true.
Proof.
  induction s as [| c s IH]; [reflexivity |]. cbn [forallb].
  intros H. apply andb_true_iff in H as [Hc Hs]. rewrite (IH Hs), andb_true_r.
  unfold is_not. destruct (N.eqb_spec (ch "[") c) as [<- | _];
    [discriminate Hc | reflexivity].
Qed.

Lemma cleanup_whitespace (s : str) :
  forallb is_space s = true -> cleanup s = [].
Proof.
  intros Hs. rewrite <- forallb_space in Hs.
  assert (Hm : forallb space_or_lf (max_newlines s) = true).
  { apply forallb_forall. apply Forall_forall. apply replace_from_Forall.
    - intros caps. cbn [expand]. rewrite app_nil_r.
      repeat constructor; reflexivity.
    - apply Forall_forall. now apply forallb_forall. }
  unfold cleanup. rewrite trim_start_closed, (run_all _ _ Hm), skipn_all.
  reflexivity.
Qed.

(** Converter output made of whitespace only is cleaned up to the empty
    text, whether links are kept or not. *)
Theorem whitespace_only_gives_empty (includeLinks : bool) (markdown : str) :
  forallb is_space markdown = true ->
  post_processed includeLinks markdown = [].
Proof.
  intros Hs. unfold post_processed. destruct includeLinks.
  - now apply cleanup_whitespace.
  - unfold strip_links, replace_all. rewrite replace_from_none.
    + now apply cleanup_whitespace.
    + apply exec_no_bracket. now apply space_is_no_bracket.
Qed.

Lemma whitespace_only_witness :
  post_processed false ([LF; 32; 9; LF; LF; LF; LF; 160; 13]%N) = [].
Proof.
  apply (@whitespace_only_gives_empty false [LF; 32; 9; LF; LF; LF; LF; 160; 13]%N).
  reflexivity.
Defined.


Lemma run_repeat_stop (n : nat) (rest : str) :
  starts_with [LF] rest = false ->
  run (is_ LF) (repeat LF n ++ rest) = n.
Proof.
  intros Hr. induction n as [| n IH]; cbn [repeat List.app run].
  - destruct rest as [| c rest]; [reflexivity |].
    cbn [starts_with] in Hr. rewrite andb_true_r in Hr.
    cbn [run]. unfold is_. now rewrite Hr.
  - change (is_ LF LF) with true. cbv iota. now rewrite IH.
Qed.

Lemma short_run_kept (rest : str) :
  starts_with [LF] rest = false ->
  forall n i, n < 4 ->
    replace_from newlines_re [Lit [LF; LF; LF]] i (repeat LF n ++ rest) 0
    = repeat LF n ++ max_newlines rest.
Proof.
  intros Hr. induction n as [| n IH]; intros i Hn.
  - apply max_newlines_from.
  - rewrite max_newlines_step, run_repeat_stop by assumption.
    replace (4 <=? S n) with false by (symmetry; apply Nat.leb_gt; lia).
    cbn [repeat List.app]. f_equal. apply IH. lia.
Qed.

(** How the first replacement treats line feeds: a run of [n] line feeds
    comes out as [min n 3] line feeds, and every other code unit is copied. *)
Theorem newline_runs_are_capped (n : nat) (rest : str) :
  starts_with [LF] rest = false ->
  max_newlines (repeat LF n ++ rest)
  = repeat LF (Nat.min n 3) ++ max_newlines rest
  /\ (forall (c : cu) (s : str),
        N.eqb LF c = false -> max_newlines (c :: s) = c :: max_newlines s).
Proof.
  intros Hr. split.
  - destruct (Nat.lt_ge_cases n 4) as [Hn | Hn].
    + replace (Nat.min n 3) with n by lia.
      unfold max_newlines at 1. unfold replace_all.
      now apply short_run_kept.
    + replace (Nat.min n 3) with 3 by lia.
      unfold max_newlines at 1. unfold replace_all.
      rewrite max_newlines_step, run_repeat_stop by assumption.
      replace (4 <=? n) with true by (symmetry; apply Nat.leb_le; lia).
      rewrite <- (repeat_length LF n) at 2. rewrite skipn_length_app.
      now rewrite max_newlines_from.
  - intros c s Hc. unfold max_newlines at 1. unfold replace_all.
    rewrite max_newlines_step. cbn [run]. unfold is_ at 1. rewrite Hc.
    cbn [Nat.leb]. now rewrite max_newlines_from.
Qed.

Lemma newline_runs_witness :
  max_newlines (repeat LF 6 ++ lit "b" ++ [LF; LF])
  = repeat LF 3 ++ max_newlines (lit "b" ++ [LF; LF]).
Proof.
  apply (@newline_runs_are_capped 6 (lit "b" ++ [LF; LF])). reflexivity.
Defined.






Lemma substring_length (s : str) (a b : Z) :
  List.length (substring s a b) <= List.length s.
Proof.
  unfold substring. rewrite length_firstn, length_skipn. lia.
Qed.

(** The post-processing only removes: the text that reaches the truncation
    step is never longer than the converter's output, and the text returned
    exceeds it by at most the truncation suffix. *)
Theorem html_output_is_bounded_by_the_markdown
  (w : World) (url : str) (includeLinks : bool) (maxLength : option Z)
  (response : Response) (body markdown : str) :
  ready w = None ->
  fetch w url fetch_init = inr response ->
  success response ->
  text response = inr body ->
  is_html response = true ->
  convert w body convert_options = inr markdown ->
  (Js.length (post_processed includeLinks markdown) <= Js.length markdown)%Z
  /\ exists r log,
       invoke w url includeLinks maxLength = (inr r, log)
       /\ (Js.length (content_text r)
           <= Js.length markdown + Js.length truncation_suffix)%Z
       /\ (maxLength = None ->
           (Js.length (content_text r) <= Js.length markdown)%Z).
Proof.
  intros Hr Hf Hs Ht Hh Hc. apply ok_success in Hs.
  assert (Hp : (Js.length (post_processed includeLinks markdown)
                <= Js.length markdown)%Z).
  { unfold post_processed, Js.length. destruct includeLinks.
    - pose proof (cleanup_length markdown). lia.
    - pose proof (cleanup_length (strip_links markdown)).
      pose proof (strip_links_length markdown). lia. }
  split; [exact Hp |].
  eexists. eexists. split; [eapply invoke_html; eassumption |].
  cbn [content_text]. split.
  - destruct (over_limit maxLength (post_processed includeLinks markdown)).
    + unfold Js.length in *. rewrite length_app.
      pose proof (substring_length (post_processed includeLinks markdown) 0
                    (limit maxLength)).
      lia.
    + unfold Js.length in *. lia.
  - intros ->. exact Hp.
Qed.

Lemma html_output_bound_witness :
  (Js.length (post_processed false (lit "Hello [link](x) "))
   <= Js.length (lit "Hello [link](x) "))%Z.
Proof.
  apply (@html_output_is_bounded_by_the_markdown
           (serving html_page (inr (lit "Hello [link](x) ")))
           some_url false None html_page
           (lit "<p>Hello <a href=x>link</a></p>") (lit "Hello [link](x) ")).
  - reflexivity.
  - reflexivity.
  - unfold success. simpl. lia.
  - reflexivity.
  - reflexivity.
  - reflexivity.
Defined.


Lemma str_eqb_eq (a b : str) : str_eqb a b = true <-> a = b.
Proof.
  revert b. induction a as [| x a IH]; intros [| y b]; cbn [str_eqb];
    try (split; [discriminate | discriminate]); [tauto |].
  rewrite andb_true_iff, N.eqb_eq, IH. split.
  - now intros [-> ->].
  - intros E. now injection E.
Qed.

Lemma str_eqb_longer (p x : str) : x <> [] -> str_eqb (p ++ x) p = false.
Proof.
  intros Hx. destruct (str_eqb (p ++ x) p) eqn:E; [| reflexivity].
  apply str_eqb_eq in E. rewrite <- (app_nil_r p) in E at 2.
  apply app_inv_head in E. contradiction.
Qed.

(** Paths are compared whole: a served path followed by anything more, a
    trailing slash or a sub-path, is answered 404 "Not found"; the one
    longer path served is "/sse/message". *)
Theorem served_paths_are_exact (x : str) :
  x <> [] ->
  worker_fetch (lit "/mcp" ++ x) = Respond (lit "Not found") 404
  /\ worker_fetch (lit "/sse/message" ++ x) = Respond (lit "Not found") 404
  /\ (x <> lit "/message" ->
      worker_fetch (lit "/sse" ++ x) = Respond (lit "Not found") 404).
Proof.
  intros Hx. unfold worker_fetch. split; [| split].
  - rewrite (str_eqb_longer (lit "/mcp") Hx). reflexivity.
  - rewrite (str_eqb_longer (lit "/sse/message") Hx).
    destruct x; [contradiction | reflexivity].
  - intros Hm. rewrite (str_eqb_longer (lit "/sse") Hx).
    destruct (str_eqb (lit "/sse" ++ x) (lit "/sse/message")) eqn:E.
    + apply str_eqb_eq in E.
      change (lit "/sse/message") with (lit "/sse" ++ lit "/message") in E.
      apply app_inv_head in E. contradiction.
    + reflexivity.
Qed.

Lemma served_paths_witness :
  worker_fetch (lit "/mcp/") = Respond (lit "Not found") 404
  /\ worker_fetch (lit "/sse/message/") = Respond (lit "Not found") 404
  /\ worker_fetch (lit "/sse/") = Respond (lit "Not found") 404.
Proof.
  destruct (@served_paths_are_exact (lit "/")) as (H1 & H2 & H3).
  - discriminate.
  - split; [exact H1 | split; [exact H2 |]]. apply H3. discriminate.
Defined.
